(** * IonoCraft rigid-body dynamics: one simulation step

    A shallow embedding of [crazyflie_mpc/src/dynamics_ionocraft.py]
    (class [IonoCraft]) and the properties its specification states.

    Scalars.  The program computes on IEEE-754 doubles held in numpy arrays.
    Here every scalar is a real number of the Standard Library: the real
    trigonometric functions stand for [math.sin] and [math.cos], and
    arithmetic is exact.  Properties that only hold up to rounding in the
    program ("roughly constant") are therefore exact equalities here.

    Arrays.  A one-dimensional numpy array is a [list R], a two-dimensional
    one a list of rows.

    Effects.  [simulate] samples the process-wide numpy random source and
    can raise; it is a computation in a state-and-error monad over the
    random source.  A second model of [simulate] over a store of array
    objects tracks which objects are allocated and written. *)

From Stdlib Require Import String Reals Lra List Lia Bool Arith.
Import ListNotations.
Open Scope R_scope.

(** ** Exceptions and results *)

Inductive exn : Type :=
| DimensionMismatchError   (* raised by the base class on a wrong length *)
| InvalidParameterError    (* raised at construction *)
| ZeroDivisionError        (* Python float division by zero *)
| LinAlgError              (* numpy.linalg.inv on a singular matrix *)
| ValueError               (* numpy.random.normal with a negative scale; dot on unaligned shapes *)
| IndexError               (* an index past the end of an array *)
| TypeError.               (* an operand that is not an array of the expected kind *)

Inductive result (A : Type) : Type :=
| Ok (a : A)
| Raise (e : exn).
Arguments Ok {A} a.
Arguments Raise {A} e.

(** ** numpy arrays *)

Definition vec : Type := list R.
Definition matrix : Type := list vec.

Fixpoint map2 {A B C : Type} (f : A -> B -> C) (l : list A) (l' : list B) : list C :=
  match l, l' with
  | a :: t, b :: t' => f a b :: map2 f t t'
  | _, _ => []
  end.

(** [a + b], [a - b] on arrays of one shape (the only use in the program). *)
Definition vadd (a b : vec) : vec := map2 Rplus a b.
Definition vsub (a b : vec) : vec := map2 Rminus a b.
(** [c * a] and [a / c] for a scalar [c]. *)
Definition vscale (c : R) (a : vec) : vec := map (Rmult c) a.
Definition vdiv (a : vec) (c : R) : vec := map (fun v => v / c) a.
(** [np.zeros(n)], [np.ones(n)]. *)
Definition zeros (n : nat) : vec := repeat 0 n.
Definition ones (n : nat) : vec := repeat 1 n.

Definition dot (a b : vec) : R := fold_right Rplus 0 (map2 Rmult a b).
(** [np.matmul(M, v)] for a matrix and a vector. *)
Definition matvec (M : matrix) (v : vec) : vec := map (fun row => dot row v) M.
Definition col (j : nat) (M : matrix) : vec := map (fun row => nth j row 0) M.
(** [np.matmul(A, B)] for two matrices. *)
Definition matmul (A B : matrix) : matrix :=
  map (fun row => map (fun j => dot row (col j B)) (seq 0 (length (hd [] B)))) A.

(** [a[idx]] for a list of indices (a copy of the selected entries). *)
Definition take_idx (a : vec) (idx : list nat) : vec := map (fun i => nth i a 0) idx.

Fixpoint set_nth {A : Type} (i : nat) (v : A) (a : list A) : list A :=
  match a, i with
  | [], _ => []
  | _ :: t, O => v :: t
  | h :: t, S i' => h :: set_nth i' v t
  end.

(** [a[idx] = vals], entry by entry. *)
Fixpoint set_idx (a : vec) (idx : list nat) (vals : vec) : vec :=
  match idx, vals with
  | i :: idx', v :: vals' => set_idx (set_nth i v a) idx' vals'
  | _, _ => a
  end.

(** [np.clip(a, lo, hi)]: [minimum(hi, maximum(a, lo))] componentwise. *)
Definition clip (a : vec) (lo hi : R) : vec := map (fun v => Rmin hi (Rmax v lo)) a.

(** [np.linalg.inv] on a 3x3 matrix: the exact inverse through the adjugate;
    a singular (or differently shaped) argument raises [LinAlgError]. *)
Definition det3 (a b c d e f g h i : R) : R :=
  a * (e * i - f * h) - b * (d * i - f * g) + c * (d * h - e * g).

Definition linalg_inv (M : matrix) : result matrix :=
  match M with
  | [[a; b; c]; [d; e; f]; [g; h; i]] =>
      let D := det3 a b c d e f g h i in
      if Req_dec_T D 0 then Raise LinAlgError
      else Ok [[(e * i - f * h) / D; (c * h - b * i) / D; (b * f - c * e) / D];
               [(f * g - d * i) / D; (a * i - c * g) / D; (c * d - a * f) / D];
               [(d * h - e * g) / D; (b * g - a * h) / D; (a * e - b * d) / D]]
  | _ => Raise LinAlgError
  end.

(** ** The random source

    The state of [np.random] is a stream of standard-normal samples and the
    number of samples already consumed. *)

Record RandomState : Type := mkRandomState {
  gauss : nat -> R;
  drawn : nat
}.

(** ** Computations that sample and may raise *)

Definition M (A : Type) : Type := RandomState -> result A * RandomState.

Definition ret {A : Type} (a : A) : M A := fun rs => (Ok a, rs).
Definition raise {A : Type} (e : exn) : M A := fun rs => (Raise e, rs).
Definition bind {A B : Type} (c : M A) (k : A -> M B) : M B :=
  fun rs =>
    match c rs with
    | (Ok a, rs') => k a rs'
    | (Raise e, rs') => (Raise e, rs')
    end.

Notation "x <- c ;; k" := (bind c (fun x => k))
  (at level 61, c at next level, right associativity).
Notation "c ;;; k" := (bind c (fun _ => k))
  (at level 61, right associativity).

(** [np.random.normal(loc, scale, size)]: [size] fresh samples
    [loc + scale * z]; a negative [scale] raises before anything is drawn. *)
Definition random_normal (loc scale : R) (size : nat) : M vec :=
  fun rs =>
    if Rlt_dec scale 0 then (Raise ValueError, rs)
    else (Ok (map (fun k => loc + scale * gauss rs k) (seq (drawn rs) size)),
          mkRandomState (gauss rs) (drawn rs + size)).

(** A value or an exception computed without sampling. *)
Definition lift {A : Type} (r : result A) : M A := fun rs => (r, rs).

(** Python's [a / b] on floats. *)
Definition py_div (a b : R) : M R :=
  if Req_dec_T b 0 then raise ZeroDivisionError else ret (a / b).

(** ** The base class [Dynamics] (module [dynamics], imported with [*]) *)

(** A name-to-(index, category) dictionary, in insertion order. *)
Definition param_dict : Type := list (string * (nat * string)).

Record Dynamics : Type := mkDynamics {
  x_dict : param_dict;
  u_dict : param_dict;
  dt : R;
  x_dim : nat;
  u_dim : nat;
  x_noise : R;
  u_noise : R
}.

(** Modelled from the spec: [Dynamics.__init__] is not part of the sources.
    It receives the dictionaries, the timestep, the dimensions and the two
    noise levels; of the positivity constraints of construction, the
    timestep is the only one it can see, and it fails with
    [InvalidParameterError] when [dt] is not positive. *)
Definition Dynamics_init (state_dict input_dict : param_dict) (dt : R)
    (x_dim u_dim : nat) (x_noise u_noise : R) : result Dynamics :=
  if Rlt_dec 0 dt
  then Ok (mkDynamics state_dict input_dict dt x_dim u_dim x_noise u_noise)
  else Raise InvalidParameterError.

(** Modelled from the spec: [Dynamics._enforce_dimension] is not part of
    the sources.  It raises [DimensionMismatchError] if the length of the
    state or of the input does not match the configured dimensions, and
    does nothing else. *)
Definition _enforce_dimension (self : Dynamics) (x u : vec) : M unit :=
  if negb (length x =? x_dim self)%nat then raise DimensionMismatchError
  else if negb (length u =? u_dim self)%nat then raise DimensionMismatchError
  else ret tt.

(** The helpers [Q_BI], [Q_IB] and [W_inv] return 3x3 arrays. *)
Definition mat3 : Type := (R * R * R) * (R * R * R) * (R * R * R).

Definition rows (A : mat3) : matrix :=
  let '((a, b, c), (d, e, f), (g, h, i)) := A in
  [[a; b; c]; [d; e; f]; [g; h; i]].

Definition identity3 : mat3 := ((1, 0, 0), (0, 1, 0), (0, 0, 1)).

(** Modelled from the spec: the rotation helpers [Q_BI] (body to world),
    [Q_IB] (world to body) and the Euler-angle-rate transform [W_inv] of
    module [dynamics] are not part of the sources.  These are the usual
    yaw-pitch-roll matrices; the properties below are stated for arbitrary
    helpers and use these only as an instance. *)
Definition Q_BI_std (ypr : vec) : mat3 :=
  let y := nth 0 ypr 0 in let p := nth 1 ypr 0 in let r := nth 2 ypr 0 in
  ((cos y * cos p, cos y * sin p * sin r - sin y * cos r, cos y * sin p * cos r + sin y * sin r),
   (sin y * cos p, sin y * sin p * sin r + cos y * cos r, sin y * sin p * cos r - cos y * sin r),
   (- sin p,       cos p * sin r,                         cos p * cos r)).

Definition Q_IB_std (ypr : vec) : mat3 :=
  let y := nth 0 ypr 0 in let p := nth 1 ypr 0 in let r := nth 2 ypr 0 in
  ((cos y * cos p,                         sin y * cos p,                         - sin p),
   (cos y * sin p * sin r - sin y * cos r, sin y * sin p * sin r + cos y * cos r, cos p * sin r),
   (cos y * sin p * cos r + sin y * sin r, sin y * sin p * cos r - cos y * sin r, cos p * cos r)).

Definition W_inv_std (ypr : vec) : mat3 :=
  let y := nth 0 ypr 0 in let p := nth 1 ypr 0 in
  ((1, sin y * tan p, cos y * tan p),
   (0, cos y,         - sin y),
   (0, sin y / cos p, cos y / cos p)).

(** ** The class [IonoCraft] *)

Record IonoCraft : Type := mkIonoCraft {
  base : Dynamics;
  idx_xyz : list nat;
  idx_xyz_dot : list nat;
  idx_ptp : list nat;
  idx_ptp_dot : list nat;
  idx_xyz_ddot : list nat;
  m : R;
  L : R;
  threeinput : bool;
  angle : R;
  Ixx : R;
  Iyy : R;
  Izz : R;
  g : R;
  Ib : matrix;
  u_e : vec;
  _hover_mats : list vec
}.

Open Scope string_scope.
Definition _state_dict : param_dict :=
  [("X", (0, "pos")); ("Y", (1, "pos")); ("Z", (2, "pos"));
   ("vx", (3, "vel")); ("vy", (4, "vel")); ("vz", (5, "vel"));
   ("yaw", (6, "angle")); ("pitch", (7, "angle")); ("roll", (8, "angle"));
   ("w_x", (9, "omega")); ("w_y", (10, "omega")); ("w_z", (11, "omega"));
   ("ax", (12, "accel")); ("ay", (13, "accel")); ("az", (14, "accel"))]%nat.

Definition _input_dict (threeinput : bool) : param_dict :=
  if threeinput
  then [("Thrust", (0, "force")); ("taux", (1, "torque")); ("tauy", (2, "torque"))]%nat
  else [("F1", (0, "force")); ("F2", (1, "force")); ("F3", (2, "force")); ("F4", (3, "force"))]%nat.
Close Scope string_scope.

(** The attribute assignments of [IonoCraft.__init__] that follow the call
    of the base-class initialiser, whose result is [super]. *)
Definition IonoCraft_fields (super : Dynamics) (threeinput : bool)
    (m L Ixx Iyy Izz angle : R) : IonoCraft :=
  let g := 9.81 in
  {| base := super;
     idx_xyz := [0; 1; 2]%nat;
     idx_xyz_dot := [3; 4; 5]%nat;
     idx_ptp := [6; 7; 8]%nat;
     idx_ptp_dot := [9; 10; 11]%nat;
     idx_xyz_ddot := [12; 13; 14]%nat;
     m := m;
     L := L;
     threeinput := threeinput;
     angle := angle;
     Ixx := Ixx;
     Iyy := Iyy;
     Izz := Izz;
     g := g;
     Ib := [[Ixx; 0; 0]; [0; Iyy; 0]; [0; 0; Izz]];
     u_e := if threeinput then [m * g; 0; 0] else vscale (m * g / 4) (ones 4);
     _hover_mats := [[1; 1; 1; 1]; [-1; -1; 1; 1]; [-1; 1; 1; -1]] |}.

(** [IonoCraft.__init__]; the argument [linear] is never read. *)
Definition IonoCraft_init (dt : R) (threeinput : bool)
    (m L Ixx Iyy Izz angle x_noise u_noise : R) : result IonoCraft :=
  match Dynamics_init _state_dict (_input_dict threeinput) dt
          (length _state_dict) (length (_input_dict threeinput)) x_noise u_noise with
  | Raise e => Raise e
  | Ok super => Ok (IonoCraft_fields super threeinput m L Ixx Iyy Izz angle)
  end.

(** A model that some call of the constructor returned. *)
Definition constructed (self : IonoCraft) : Prop :=
  exists dt threeinput m L Ixx Iyy Izz angle x_noise u_noise,
    IonoCraft_init dt threeinput m L Ixx Iyy Izz angle x_noise u_noise = Ok self.

(** The keyword defaults of [__init__]. *)
Definition default_m : R := 67e-6.
Definition default_L : R := 0.01.
Definition default_Ixx : R := 5.5833e-10.
Definition default_Iyy : R := 5.5833e-10.
Definition default_Izz : R := 1.1167e-09.
Definition default_angle : R := 0.
Definition default_x_noise : R := 0.0001.
Definition default_u_noise : R := 0.

(** [_enforce_input_range] with its default bounds. *)
Definition lowerbound : R := 0.
Definition upperbound : R := 500e-6.

Definition _enforce_input_range (input : vec) : vec := clip input lowerbound upperbound.

(** [force2thrust_torque]:
    [Thrustx; Thrusty; Thrustz; Tauz; Tauy; Taux] = M * [F4; F3; F2; F1]. *)
Definition force2thrust_torque (self : IonoCraft) (angle : R) : matrix :=
  [[0;                       sin angle;               0;                       - sin angle];
   [- sin angle;             0;                       sin angle;               0];
   [cos angle;               cos angle;               cos angle;               cos angle];
   [- L self * sin angle;    L self * sin angle;      - L self * sin angle;    L self * sin angle];
   [- L self * cos angle;    - L self * cos angle;    L self * cos angle;      L self * cos angle];
   [L self * cos angle;      - L self * cos angle;    - L self * cos angle;    L self * cos angle]].

(** [pqr2rpy] (not called by [simulate]).  The matrix literal reads [x0[0]]
    and [x0[1]], which raises [IndexError] on a shorter [x0]; its last row
    divides two Python floats by [math.cos(x0[1])], and Python's [/] raises
    [ZeroDivisionError] on a zero divisor; [dot] raises [ValueError] unless
    [pqr] has three entries. *)
Definition pqr2rpy (x0 pqr : vec) : result vec :=
  match x0 with
  | a :: b :: _ =>
      if Req_dec_T (cos b) 0 then Raise ZeroDivisionError
      else if negb (length pqr =? 3)%nat then Raise ValueError
      else
        let rotn_matrix :=
          [[1; sin a * tan b; cos a * tan b];
           [0; cos a;         - sin a];
           [0; sin a / cos b; cos a / cos b]] in
        Ok (matvec rotn_matrix pqr)
  | _ => Raise IndexError
  end.

(** The cleanup threshold of the last assignment of [simulate]. *)
Definition snap_eps : R := 1e-15.

(** [x1[np.abs(x1) < 1e-15] = 0], on one component. *)
Definition snap (v : R) : R := if Rlt_dec (Rabs v) snap_eps then 0 else v.

(** ** [simulate] over a store of array objects

    numpy arrays are mutable objects and Python variables hold references
    to them.  The store below holds every array object, the attribute table
    of the model instance and the random source; [simulate_heap] takes the
    references the caller passes and returns the reference it hands back. *)

Inductive ndarray : Type :=
| Arr1 (v : vec)             (* float array of shape (n,) *)
| Arr2 (A : matrix)          (* float array of shape (r, c) *)
| ArrB (b : list bool).      (* boolean array of shape (n,) *)

Definition loc : Type := nat.

(** The attribute table of the instance: numbers, flags and index lists as
    in [IonoCraft], and references for the attributes that are arrays. *)
Record Instance : Type := mkInstance {
  attrs : IonoCraft;
  Ib_ref : loc;
  u_e_ref : loc;
  hover_refs : list loc
}.

Record Store : Type := mkStore {
  arrays : list ndarray;
  instance : Instance;
  random : RandomState
}.

Definition MH (A : Type) : Type := Store -> result A * Store.

Definition h_ret {A : Type} (a : A) : MH A := fun st => (Ok a, st).
Definition h_raise {A : Type} (e : exn) : MH A := fun st => (Raise e, st).
Definition h_bind {A B : Type} (c : MH A) (k : A -> MH B) : MH B :=
  fun st =>
    match c st with
    | (Ok a, st') => k a st'
    | (Raise e, st') => (Raise e, st')
    end.

Notation "x <~ c ;; k" := (h_bind c (fun x => k))
  (at level 61, c at next level, right associativity).
Notation "c ~;; k" := (h_bind c (fun _ => k))
  (at level 61, right associativity).

(** A new array object; its reference is the next free one. *)
Definition alloc (a : ndarray) : MH loc :=
  fun st => (Ok (length (arrays st)),
             mkStore (arrays st ++ [a]) (instance st) (random st)).

Definition load (l : loc) : MH ndarray :=
  fun st => match nth_error (arrays st) l with
            | Some a => (Ok a, st)
            | None => (Raise TypeError, st)
            end.

Definition load1 (l : loc) : MH vec :=
  a <~ load l ;; match a with Arr1 v => h_ret v | _ => h_raise TypeError end.

Definition load2 (l : loc) : MH matrix :=
  a <~ load l ;; match a with Arr2 A => h_ret A | _ => h_raise TypeError end.

Definition loadB (l : loc) : MH (list bool) :=
  a <~ load l ;; match a with ArrB b => h_ret b | _ => h_raise TypeError end.

(** In-place update of the array object at [l]. *)
Definition store (l : loc) (a : ndarray) : MH unit :=
  fun st => (Ok tt, mkStore (set_nth l a (arrays st)) (instance st) (random st)).

(** Reading [self]. *)
Definition get_self : MH Instance := fun st => (Ok (instance st), st).

(** A computation on the random source alone. *)
Definition sample {A : Type} (c : M A) : MH A :=
  fun st => let (r, rs) := c (random st) in (r, mkStore (arrays st) (instance st) rs).

(** numpy operations on references.  Each allocates its result. *)
Definition np_array (v : vec) : MH loc := alloc (Arr1 v).
Definition np_array2 (A : matrix) : MH loc := alloc (Arr2 A).
Definition np_unop (f : vec -> vec) (a : loc) : MH loc :=
  va <~ load1 a ;; alloc (Arr1 (f va)).
Definition np_binop (f : vec -> vec -> vec) (a b : loc) : MH loc :=
  va <~ load1 a ;; vb <~ load1 b ;; alloc (Arr1 (f va vb)).
Definition np_matvec (A v : loc) : MH loc :=
  mA <~ load2 A ;; vv <~ load1 v ;; alloc (Arr1 (matvec mA vv)).
Definition np_matmul (A B : loc) : MH loc :=
  mA <~ load2 A ;; mB <~ load2 B ;; alloc (Arr2 (matmul mA mB)).
Definition np_item (a : loc) (i : nat) : MH R :=
  va <~ load1 a ;; h_ret (nth i va 0).
Definition np_take (a : loc) (idx : list nat) : MH loc :=
  np_unop (fun va => take_idx va idx) a.
Definition np_setitem (a : loc) (idx : list nat) (vals : loc) : MH unit :=
  va <~ load1 a ;; vv <~ load1 vals ;; store a (Arr1 (set_idx va idx vv)).
Definition np_less (a : loc) (c : R) : MH loc :=
  va <~ load1 a ;;
  alloc (ArrB (map (fun v => if Rlt_dec v c then true else false) va)).
Definition np_setmask (a mask : loc) (c : R) : MH unit :=
  va <~ load1 a ;; vm <~ loadB mask ;;
  store a (Arr1 (map2 (fun v (b : bool) => if b then c else v) va vm)).
Definition np_random_normal (mean scale : R) (size : nat) : MH loc :=
  v <~ sample (random_normal mean scale size) ;; alloc (Arr1 v).
Definition np_linalg_inv (A : loc) : MH loc :=
  mA <~ load2 A ;; Ai <~ sample (lift (linalg_inv mA)) ;; alloc (Arr2 Ai).

(** Modelled from the spec: a helper of module [dynamics] is a
    deterministic function of the orientation it is given; it reads its
    argument and returns a new array. *)
Definition call_helper (f : vec -> mat3) (a : loc) : MH loc :=
  va <~ load1 a ;; alloc (Arr2 (rows (f va))).

(** ** Instances used in the examples *)

(** A three-input model with the default parameters, zero noise and a
    timestep of 0.01. *)
Definition quiet_model : IonoCraft :=
  IonoCraft_fields
    (mkDynamics _state_dict (_input_dict true) 0.01 15 3 0 0)
    true default_m default_L default_Ixx default_Iyy default_Izz default_angle.

(** The same with a mass of 1 and a timestep of 1. *)
Definition heavy_model : IonoCraft :=
  IonoCraft_fields
    (mkDynamics _state_dict (_input_dict true) 1 15 3 0 0)
    true 1 default_L default_Ixx default_Iyy default_Izz default_angle.

(** Two random sources with different contents and positions. *)
Definition rs_a : RandomState := mkRandomState (fun k => INR k) 0.
Definition rs_b : RandomState := mkRandomState (fun _ => 1) 7.

(** A store in which the caller holds a state array (reference 0) and passes
    the model's own equilibrium input (reference 1) as the input. *)
Definition quiet_store : Store :=
  mkStore
    [Arr1 (zeros 15); Arr1 (u_e quiet_model); Arr2 (Ib quiet_model);
     Arr1 [1; 1; 1; 1]; Arr1 [-1; -1; 1; 1]; Arr1 [-1; 1; 1; -1]]
    (mkInstance quiet_model 2%nat 1%nat [3; 4; 5]%nat)
    rs_a.

(** ** Vocabulary for further properties *)

(** The indices a dictionary gives to one category, in dictionary order. *)
Definition dict_indices (category : string) (d : param_dict) : list nat :=
  map (fun e => fst (snd e))
      (filter (fun e => String.eqb (snd (snd e)) category) d).

(** The random source after [n] more samples. *)
Definition advance (n : nat) (rs : RandomState) : RandomState :=
  mkRandomState (gauss rs) (drawn rs + n).

(** The model [__init__] builds from its arguments once the base-class
    initialiser has accepted the timestep. *)
Definition model_of (dt : R) (threeinput : bool)
    (m L Ixx Iyy Izz angle x_noise u_noise : R) : IonoCraft :=
  IonoCraft_fields
    (mkDynamics _state_dict (_input_dict threeinput) dt
       15 (if threeinput then 3 else 4) x_noise u_noise)
    threeinput m L Ixx Iyy Izz angle.

(** The local variables of one call of [simulate].  The source rebinds [u]
    three times and [x1] three times; every binding has a field. *)
Record Locals : Type := mkLocals {
  ypr : vec;                 (* x0[idx_ptp] *)
  u_noise_vec : vec;
  u_noised : vec;            (* u = u + u_noise_vec *)
  u_thrusters : vec;         (* u after the three-input expansion *)
  u_clipped : vec;           (* u = self._enforce_input_range(u) *)
  T_tau_thrusters : vec;
  Tau : vec;
  F_ext : vec;
  F_global : vec;
  xdot : vec;
  x_noise_vec : vec;
  x1_euler : vec;            (* x1 = x0 + dt*xdot + x_noise_vec *)
  x1_accel : vec;            (* after x1[idx_xyz_ddot] = ... *)
  x1 : vec                   (* after x1[np.abs(x1) < 1e-15] = 0 *)
}.

Section Simulate.

(** The helpers of module [dynamics] that [simulate] calls. *)
Variables Q_IB Q_BI W_inv : vec -> mat3.

(** The body of [IonoCraft.simulate], statement by statement. *)
Definition simulate_locals (self : IonoCraft) (x u : vec) : M Locals :=
  _enforce_dimension (base self) x u ;;;
  let dt := dt (base self) in
  let x0 := x in
  let m := m self in
  let L := L self in
  let angle := angle self in
  let Ib := Ib self in
  let g := g self in
  let ypr := take_idx x0 (idx_ptp self) in
  (* add noise to input *)
  u_noise_vec <- random_normal 0 (u_noise (base self)) (u_dim (base self)) ;;
  let u_noised := vadd u u_noise_vec in
  (* if 3 dimensional input, transform to thruster form *)
  let u_thrusters :=
    if threeinput self
    then vadd (vadd (vscale (nth 0 u_noised 0 / 4) (nth 0 (_hover_mats self) []))
                    (vscale (nth 1 u_noised 0 * L / 4) (nth 1 (_hover_mats self) [])))
              (vscale (nth 2 u_noised 0 * L / 4) (nth 2 (_hover_mats self) []))
    else u_noised in
  let u_clipped := _enforce_input_range u_thrusters in
  (* transform the input into body frame forces *)
  let T_tau_thrusters := matvec (force2thrust_torque self angle) u_clipped in
  let Tx := nth 0 T_tau_thrusters 0 in
  let Ty := nth 1 T_tau_thrusters 0 in
  let Tz := nth 2 T_tau_thrusters 0 in
  let Tauz := nth 3 T_tau_thrusters 0 in
  let Tauy := nth 4 T_tau_thrusters 0 in
  let Taux := nth 5 T_tau_thrusters 0 in
  let Tau := [Taux; Tauy; Tauz] in
  (* external forces acting on robot *)
  let F_ext := vsub (matvec (rows (Q_IB ypr)) [0; 0; m * g]) [Tx; Ty; Tz] in
  (* project force vectors for acceleration measurements *)
  let F_global := matvec (rows (Q_BI ypr)) (firstn 3 T_tau_thrusters) in
  (* free body dynamics *)
  let xdot := zeros (x_dim (base self)) in
  let xdot := set_idx xdot (idx_xyz self)
                (matvec (rows (Q_BI ypr)) (take_idx x0 (idx_xyz_dot self))) in
  let xdot := set_idx xdot (idx_ptp self)
                (matvec (rows (W_inv ypr)) (take_idx x0 (idx_ptp_dot self))) in
  let omega := take_idx x0 (idx_ptp_dot self) in
  let omega_mat := [[0;               - nth 2 omega 0; nth 1 omega 0];
                    [nth 2 omega 0;   0;               - nth 0 omega 0];
                    [- nth 1 omega 0; nth 0 omega 0;   0]] in
  inv_m <- py_div 1 m ;;
  let xdot := set_idx xdot (idx_xyz_dot self)
                (vsub (vscale inv_m F_ext)
                      (matvec omega_mat (take_idx x0 (idx_xyz_dot self)))) in
  Ib_inv <- lift (linalg_inv Ib) ;;
  Ib_inv' <- lift (linalg_inv Ib) ;;
  let xdot := set_idx xdot (idx_ptp_dot self)
                (vsub (matvec Ib_inv Tau)
                      (matvec (matmul Ib_inv' omega_mat)
                              (matvec Ib (take_idx x0 (idx_ptp_dot self))))) in
  (* state update *)
  x_noise_vec <- random_normal 0 (x_noise (base self)) (x_dim (base self)) ;;
  let x1_euler := vadd (vadd x0 (vscale dt xdot)) x_noise_vec in
  (* accelerations *)
  let x1_accel := set_idx x1_euler (idx_xyz_ddot self)
                    (vadd [0; 0; - g] (vdiv F_global m)) in
  (* makes states less than 1e-15 = 0 *)
  let x1 := map snap x1_accel in
  ret {| ypr := ypr; u_noise_vec := u_noise_vec; u_noised := u_noised;
         u_thrusters := u_thrusters; u_clipped := u_clipped;
         T_tau_thrusters := T_tau_thrusters; Tau := Tau; F_ext := F_ext;
         F_global := F_global; xdot := xdot; x_noise_vec := x_noise_vec;
         x1_euler := x1_euler; x1_accel := x1_accel; x1 := x1 |}.

(** [simulate(x, u)]: the returned array. *)
Definition simulate (self : IonoCraft) (x u : vec) : M vec :=
  loc <- simulate_locals self x u ;; ret (x1 loc).

(** [n] calls of [simulate] with one input, each on the state the
    previous call returned. *)
Fixpoint simulate_n (n : nat) (self : IonoCraft) (x u : vec) : M vec :=
  match n with
  | O => ret x
  | S n' => x' <- simulate self x u ;; simulate_n n' self x' u
  end.

(** [IonoCraft.simulate] on references: [x] and [u] are the arrays of the
    caller, the result is the array the call returns. *)
Definition simulate_heap (x u : loc) : MH loc :=
  self <~ get_self ;;
  let a := attrs self in
  xv <~ load1 x ;;
  uv <~ load1 u ;;
  sample (_enforce_dimension (base a) xv uv) ~;;
  let u0 := u in
  let x0 := x in
  ypr <~ np_take x0 (idx_ptp a) ;;
  (* add noise to input: [u] is rebound, the caller's array is not written *)
  u_noise_vec <~ np_random_normal 0 (u_noise (base a)) (u_dim (base a)) ;;
  u <~ np_binop vadd u u_noise_vec ;;
  u <~ (if threeinput a
        then
          u_0 <~ np_item u 0 ;;
          t1 <~ np_unop (vscale (u_0 / 4)) (nth 0 (hover_refs self) 0%nat) ;;
          u_1 <~ np_item u 1 ;;
          t2 <~ np_unop (vscale (u_1 * L a / 4)) (nth 1 (hover_refs self) 0%nat) ;;
          t3 <~ np_binop vadd t1 t2 ;;
          u_2 <~ np_item u 2 ;;
          t4 <~ np_unop (vscale (u_2 * L a / 4)) (nth 2 (hover_refs self) 0%nat) ;;
          np_binop vadd t3 t4
        else h_ret u) ;;
  u <~ np_unop _enforce_input_range u ;;
  (* body frame forces *)
  np_array (zeros 6) ~;;
  M <~ np_array2 (force2thrust_torque a (angle a)) ;;
  T_tau_thrusters <~ np_matvec M u ;;
  Tx <~ np_item T_tau_thrusters 0 ;;
  Ty <~ np_item T_tau_thrusters 1 ;;
  Tz <~ np_item T_tau_thrusters 2 ;;
  Tauz <~ np_item T_tau_thrusters 3 ;;
  Tauy <~ np_item T_tau_thrusters 4 ;;
  Taux <~ np_item T_tau_thrusters 5 ;;
  Tau <~ np_array [Taux; Tauy; Tauz] ;;
  (* external forces *)
  np_array (zeros 3) ~;;
  Q <~ call_helper Q_IB ypr ;;
  w <~ np_array [0; 0; m a * g a] ;;
  t1 <~ np_matvec Q w ;;
  t2 <~ np_array [Tx; Ty; Tz] ;;
  F_ext <~ np_binop vsub t1 t2 ;;
  (* acceleration measurement; [T_tau_thrusters[0:3]] is a view *)
  np_array (zeros 3) ~;;
  Q <~ call_helper Q_BI ypr ;;
  F_global <~ (mQ <~ load2 Q ;; vT <~ load1 T_tau_thrusters ;;
               alloc (Arr1 (matvec mQ (firstn 3 vT)))) ;;
  (* free body dynamics *)
  np_array (zeros (x_dim (base a))) ~;;
  xdot <~ np_array (zeros (x_dim (base a))) ;;
  Q <~ call_helper Q_BI ypr ;;
  v <~ np_take x0 (idx_xyz_dot a) ;;
  t <~ np_matvec Q v ;;
  np_setitem xdot (idx_xyz a) t ~;;
  W <~ call_helper W_inv ypr ;;
  v <~ np_take x0 (idx_ptp_dot a) ;;
  t <~ np_matvec W v ;;
  np_setitem xdot (idx_ptp a) t ~;;
  omega <~ np_take x0 (idx_ptp_dot a) ;;
  vo <~ load1 omega ;;
  omega_mat <~ np_array2 [[0;            - nth 2 vo 0; nth 1 vo 0];
                          [nth 2 vo 0;   0;            - nth 0 vo 0];
                          [- nth 1 vo 0; nth 0 vo 0;   0]] ;;
  inv_m <~ sample (py_div 1 (m a)) ;;
  t1 <~ np_unop (vscale inv_m) F_ext ;;
  v <~ np_take x0 (idx_xyz_dot a) ;;
  t2 <~ np_matvec omega_mat v ;;
  t3 <~ np_binop vsub t1 t2 ;;
  np_setitem xdot (idx_xyz_dot a) t3 ~;;
  Ib_inv <~ np_linalg_inv (Ib_ref self) ;;
  t1 <~ np_matvec Ib_inv Tau ;;
  Ib_inv' <~ np_linalg_inv (Ib_ref self) ;;
  t2 <~ np_matmul Ib_inv' omega_mat ;;
  v <~ np_take x0 (idx_ptp_dot a) ;;
  t3 <~ np_matvec (Ib_ref self) v ;;
  t4 <~ np_matvec t2 t3 ;;
  t5 <~ np_binop vsub t1 t4 ;;
  np_setitem xdot (idx_ptp_dot a) t5 ~;;
  (* state update: [x1] is rebound to a new array *)
  x_noise_vec <~ np_random_normal 0 (x_noise (base a)) (x_dim (base a)) ;;
  t1 <~ np_unop (vscale (dt (base a))) xdot ;;
  t2 <~ np_binop vadd x0 t1 ;;
  x1 <~ np_binop vadd t2 x_noise_vec ;;
  (* accelerations *)
  t1 <~ np_array [0; 0; - g a] ;;
  t2 <~ np_unop (fun v => vdiv v (m a)) F_global ;;
  t3 <~ np_binop vadd t1 t2 ;;
  np_setitem x1 (idx_xyz_ddot a) t3 ~;;
  (* makes states less than 1e-15 = 0 *)
  t1 <~ np_unop (map Rabs) x1 ;;
  mask <~ np_less t1 snap_eps ;;
  np_setmask x1 mask 0 ~;;
  h_ret x1.

(** A computation on the store is framed at [n] with result property [Q]
    when, started with at least [n] array objects, it leaves the first [n]
    of them and the attribute table of the instance as they are, never
    removes an object, and returns only values that satisfy [Q]. *)
Definition framed {A : Type} (n : nat) (c : MH A) (Q : A -> Prop) : Prop :=
  forall st, (n <= length (arrays st))%nat ->
    (length (arrays st) <= length (arrays (snd (c st))))%nat /\
    firstn n (arrays (snd (c st))) = firstn n (arrays st) /\
    instance (snd (c st)) = instance st /\
    (forall a, fst (c st) = Ok a -> Q a).

(** The array object at [l] is the float vector [v]. *)
Definition holds (st : Store) (l : loc) (v : vec) : Prop :=
  nth_error (arrays st) l = Some (Arr1 v).

(** The store holds the model [self]: its attribute table, and behind the
    references of the table the arrays [Ib], [u_e] and [_hover_mats]. *)
Definition represents (st : Store) (self : IonoCraft) : Prop :=
  attrs (instance st) = self /\
  nth_error (arrays st) (Ib_ref (instance st)) = Some (Arr2 (Ib self)) /\
  holds st (u_e_ref (instance st)) (u_e self) /\
  (forall k, (k < 3)%nat ->
     holds st (nth k (hover_refs (instance st)) 0%nat) (nth k (_hover_mats self) [])).

(** ** Auxiliary facts *)

Lemma length_15 (x : vec) : length x = 15%nat ->
  exists a0 a1 a2 a3 a4 a5 a6 a7 a8 a9 a10 a11 a12 a13 a14,
    x = [a0; a1; a2; a3; a4; a5; a6; a7; a8; a9; a10; a11; a12; a13; a14].
Proof.
  intro H.
  do 15 (destruct x as [|? x]; [discriminate H|]).
  destruct x; [|discriminate H].
  repeat eexists.
Qed.

Lemma constructed_inv self :
  constructed self ->
  exists super ti m L Ixx Iyy Izz angle,
    self = IonoCraft_fields super ti m L Ixx Iyy Izz angle /\
    x_dim super = 15%nat /\ u_dim super = (if ti then 3 else 4)%nat /\ 0 < dt super.
Proof.
  intros (step & ti & mass & len & ixx & iyy & izz & an & xn & un & H).
  unfold IonoCraft_init, Dynamics_init in H.
  destruct (Rlt_dec 0 step) as [Hdt|]; [|discriminate H].
  injection H as <-.
  eexists _, ti, mass, len, ixx, iyy, izz, an. split; [reflexivity|].
  simpl. destruct ti; auto.
Qed.

Lemma snap_small v : Rabs v < snap_eps -> snap v = 0.
Proof. intro H. unfold snap. destruct (Rlt_dec _ _); [reflexivity|contradiction]. Qed.

Lemma snap_large v : snap_eps <= Rabs v -> snap v = v.
Proof. intro H. unfold snap. destruct (Rlt_dec _ _); [lra|reflexivity]. Qed.

Lemma snap_zero : snap 0 = 0.
Proof. unfold snap. destruct (Rlt_dec _ _); reflexivity. Qed.

Lemma snap_cases v : snap v = 0 \/ (snap v = v /\ snap_eps <= Rabs v).
Proof.
  unfold snap. destruct (Rlt_dec _ _); [left; reflexivity|right; split; [reflexivity|lra]].
Qed.

Lemma zero_scale_samples (f : nat -> R) d n :
  map (fun k => 0 + 0 * f k) (seq d n) = zeros n.
Proof.
  unfold zeros. revert d. induction n as [|n IH]; intro d; simpl; [reflexivity|].
  rewrite IH. f_equal. lra.
Qed.

Lemma random_normal_zero_scale n rs :
  random_normal 0 0 n rs = (Ok (zeros n), mkRandomState (gauss rs) (drawn rs + n)).
Proof.
  unfold random_normal. destruct (Rlt_dec 0 0) as [H|_]; [lra|].
  rewrite zero_scale_samples. reflexivity.
Qed.

Ltac sim_step H :=
  match type of H with
  | context [((length ?a) =? ?b)%nat] => destruct (length a =? b)%nat eqn:?
  | context [Rlt_dec ?a 0] => destruct (Rlt_dec a 0)
  | context [Req_dec_T ?a 0] => destruct (Req_dec_T a 0)
  | context [linalg_inv ?a] => destruct (linalg_inv a) eqn:?
  end; cbv beta iota zeta delta [negb] in H; try discriminate H.

Ltac simulate_inv H :=
  unfold simulate, simulate_locals, bind, _enforce_dimension, random_normal,
    py_div, lift, ret, raise in H;
  cbv beta iota zeta in H;
  repeat sim_step H.

(** The equations between the local variables of a call that returns. *)
Lemma simulate_locals_eqns self x u rs loc rs' :
  simulate_locals self x u rs = (Ok loc, rs') ->
  let T := T_tau_thrusters loc in
  let omega := take_idx x (idx_ptp_dot self) in
  let omega_mat := [[0;               - nth 2 omega 0; nth 1 omega 0];
                    [nth 2 omega 0;   0;               - nth 0 omega 0];
                    [- nth 1 omega 0; nth 0 omega 0;   0]] in
  (length x = x_dim (base self) /\ length u = u_dim (base self)) /\
  (~ u_noise (base self) < 0 /\ ~ x_noise (base self) < 0 /\ m self <> 0) /\
  ypr loc = take_idx x (idx_ptp self) /\
  u_noise_vec loc = map (fun k => 0 + u_noise (base self) * gauss rs k)
                        (seq (drawn rs) (u_dim (base self))) /\
  u_noised loc = vadd u (u_noise_vec loc) /\
  u_thrusters loc =
    (if threeinput self
     then vadd (vadd (vscale (nth 0 (u_noised loc) 0 / 4) (nth 0 (_hover_mats self) []))
                     (vscale (nth 1 (u_noised loc) 0 * L self / 4) (nth 1 (_hover_mats self) [])))
               (vscale (nth 2 (u_noised loc) 0 * L self / 4) (nth 2 (_hover_mats self) []))
     else u_noised loc) /\
  u_clipped loc = _enforce_input_range (u_thrusters loc) /\
  T = matvec (force2thrust_torque self (angle self)) (u_clipped loc) /\
  Tau loc = [nth 5 T 0; nth 4 T 0; nth 3 T 0] /\
  F_ext loc = vsub (matvec (rows (Q_IB (ypr loc))) [0; 0; m self * g self])
                   [nth 0 T 0; nth 1 T 0; nth 2 T 0] /\
  F_global loc = matvec (rows (Q_BI (ypr loc))) (firstn 3 T) /\
  (exists Ib_inv, linalg_inv (Ib self) = Ok Ib_inv /\
     xdot loc =
       set_idx
         (set_idx
            (set_idx
               (set_idx (zeros (x_dim (base self))) (idx_xyz self)
                  (matvec (rows (Q_BI (ypr loc))) (take_idx x (idx_xyz_dot self))))
               (idx_ptp self) (matvec (rows (W_inv (ypr loc))) omega))
            (idx_xyz_dot self)
            (vsub (vscale (1 / m self) (F_ext loc))
                  (matvec omega_mat (take_idx x (idx_xyz_dot self)))))
         (idx_ptp_dot self)
         (vsub (matvec Ib_inv (Tau loc))
               (matvec (matmul Ib_inv omega_mat) (matvec (Ib self) omega)))) /\
  x_noise_vec loc = map (fun k => 0 + x_noise (base self) * gauss rs k)
                        (seq (drawn rs + u_dim (base self)) (x_dim (base self))) /\
  x1_euler loc = vadd (vadd x (vscale (dt (base self)) (xdot loc))) (x_noise_vec loc) /\
  x1_accel loc = set_idx (x1_euler loc) (idx_xyz_ddot self)
                   (vadd [0; 0; - g self] (vdiv (F_global loc) (m self))) /\
  x1 loc = map snap (x1_accel loc) /\
  rs' = mkRandomState (gauss rs) (drawn rs + u_dim (base self) + x_dim (base self)).
Proof.
  intro H. simulate_inv H.
  injection H as <- <-. cbv zeta. cbn [ypr u_noise_vec u_noised u_thrusters u_clipped
    T_tau_thrusters Tau F_ext F_global xdot x_noise_vec x1_euler x1_accel x1 gauss drawn].
  repeat match goal with
    | |- _ /\ _ => split
    | |- (length _ = _) => apply Nat.eqb_eq; assumption
    | |- exists _, _ => eexists
    end; try reflexivity; try assumption.
Qed.

(** A call returns whenever none of its checks fails. *)
Lemma simulate_locals_returns self x u rs :
  length x = x_dim (base self) -> length u = u_dim (base self) ->
  0 <= u_noise (base self) -> 0 <= x_noise (base self) -> m self <> 0 ->
  (exists Ib_inv, linalg_inv (Ib self) = Ok Ib_inv) ->
  exists loc,
    simulate_locals self x u rs =
      (Ok loc, mkRandomState (gauss rs) (drawn rs + u_dim (base self) + x_dim (base self))).
Proof.
  intros Hx Hu Hun Hxn Hm [Ibi HI].
  unfold simulate_locals, bind, _enforce_dimension, random_normal, py_div, lift, ret, raise.
  cbv beta iota zeta.
  rewrite Hx, Hu, !Nat.eqb_refl. cbv beta iota delta [negb].
  destruct (Rlt_dec (u_noise (base self)) 0); [lra|].
  destruct (Req_dec_T (m self) 0); [contradiction|].
  rewrite HI.
  destruct (Rlt_dec (x_noise (base self)) 0); [lra|].
  cbn [gauss drawn]. eexists. reflexivity.
Qed.

Lemma simulate_of_locals self x u rs v rs' :
  simulate self x u rs = (Ok v, rs') <->
  exists loc, simulate_locals self x u rs = (Ok loc, rs') /\ v = x1 loc.
Proof.
  unfold simulate, bind, ret.
  destruct (simulate_locals self x u rs) as [[loc|e] rs1]; split.
  - intro H. injection H as <- <-. exists loc. split; reflexivity.
  - intros (loc' & H & ->). injection H as <- <-. reflexivity.
  - intro H. discriminate H.
  - intros (loc' & H & _). discriminate H.
Qed.

Lemma set_nth_length {A : Type} i (v : A) a : length (set_nth i v a) = length a.
Proof.
  revert i. induction a as [|h t IH]; intros [|i]; simpl; try reflexivity.
  rewrite IH. reflexivity.
Qed.

Lemma set_idx_length a idx vals : length (set_idx a idx vals) = length a.
Proof.
  revert a vals. induction idx as [|i idx IH]; intros a [|v vals]; simpl; try reflexivity.
  rewrite IH. apply set_nth_length.
Qed.

Lemma map2_length {A B C} (f : A -> B -> C) l l' :
  length (map2 f l l') = Nat.min (length l) (length l').
Proof.
  revert l'. induction l as [|a l IH]; intros [|b l']; simpl; try reflexivity.
  rewrite IH. reflexivity.
Qed.

Lemma simulate_locals_length self x u rs loc rs' :
  simulate_locals self x u rs = (Ok loc, rs') ->
  length (x1 loc) = length x.
Proof.
  intro H. apply simulate_locals_eqns in H. cbv zeta in H.
  destruct H as ((Hx & _) & _ & _ & _ & _ & _ & _ & _ & _ & _ & _ & (Ibi & _ & Hxdot)
                 & Hxn & He & Ha & H1 & _).
  rewrite H1, length_map, Ha, set_idx_length, He.
  unfold vadd, vscale. rewrite !map2_length, length_map, Hxdot, !set_idx_length, Hxn.
  unfold zeros. rewrite repeat_length, length_map, length_seq. lia.
Qed.


(** C10. The cleanup threshold is strict: a component of the
    post-integration state whose absolute value is 1e-15 or more comes back
    unchanged, and a component comes back changed only if its absolute
    value is strictly below 1e-15 (it is then 0). *)
Theorem simulate_threshold_is_strict self x u rs loc rs' :
  simulate_locals self x u rs = (Ok loc, rs') ->
  length (x1 loc) = length (x1_accel loc) /\
  (forall i, snap_eps <= Rabs (nth i (x1_accel loc) 0) ->
     nth i (x1 loc) 0 = nth i (x1_accel loc) 0) /\
  (forall i, nth i (x1 loc) 0 <> nth i (x1_accel loc) 0 ->
     Rabs (nth i (x1_accel loc) 0) < snap_eps /\ nth i (x1 loc) 0 = 0).
Proof.
  intro H. apply simulate_locals_eqns in H. cbv zeta in H.
  destruct H as (_ & _ & _ & _ & _ & _ & _ & _ & _ & _ & _ & _ & _ & _ & _ & H1 & _).
  assert (Hn : forall i, nth i (x1 loc) 0 = snap (nth i (x1_accel loc) 0)).
  { intro i. rewrite H1. rewrite <- snap_zero at 1. apply map_nth. }
  split; [rewrite H1; apply length_map|]. split.
  - intros i Hge. rewrite Hn. apply snap_large, Hge.
  - intros i Hne. rewrite Hn in *.
    destruct (Rlt_dec (Rabs (nth i (x1_accel loc) 0)) snap_eps) as [Hlt|Hge].
    + split; [exact Hlt|apply snap_small, Hlt].
    + exfalso. apply Hne, snap_large. lra.
Qed.

(** C7. With both noise levels equal to 0, the outcome of [simulate] (the
    returned vector or the exception) is a function of the state and the
    input alone: it is the same whatever the random source holds, and both
    noise draws are the zero vector. *)
Theorem simulate_zero_noise_deterministic self x u rs1 rs2 :
  u_noise (base self) = 0 -> x_noise (base self) = 0 ->
  fst (simulate self x u rs1) = fst (simulate self x u rs2) /\
  fst (simulate_locals self x u rs1) =
    fst (simulate_locals self x u rs2) /\
  (forall loc rs', simulate_locals self x u rs1 = (Ok loc, rs') ->
     u_noise_vec loc = zeros (u_dim (base self)) /\
     x_noise_vec loc = zeros (x_dim (base self))).
Proof.
  intros Hu Hx.
  assert (Hl : forall rs, fst (simulate_locals self x u rs) =
                          fst (simulate_locals self x u (mkRandomState (fun _ => 0) 0%nat))).
  { intro rs.
    unfold simulate_locals, bind, _enforce_dimension, py_div, lift, ret, raise.
    cbv beta iota zeta. rewrite Hu, Hx.
    destruct (negb (length x =? x_dim (base self))%nat); [reflexivity|].
    destruct (negb (length u =? u_dim (base self))%nat); [reflexivity|].
    rewrite !random_normal_zero_scale.
    destruct (Req_dec_T (m self) 0); [reflexivity|].
    destruct (linalg_inv (Ib self)); [|reflexivity].
    rewrite !random_normal_zero_scale. reflexivity. }
  split; [|split].
  - unfold simulate, bind.
    generalize (Hl rs1) (Hl rs2).
    destruct (simulate_locals self x u rs1) as [[l1|e1] r1];
      destruct (simulate_locals self x u rs2) as [[l2|e2] r2];
      cbn [fst]; intros E1 E2; rewrite <- E2 in E1; try discriminate E1;
      injection E1 as ->; reflexivity.
  - rewrite (Hl rs1), (Hl rs2). reflexivity.
  - intros loc rs' H. apply simulate_locals_eqns in H. cbv zeta in H.
    destruct H as (_ & _ & _ & Hun & _ & _ & _ & _ & _ & _ & _ & _ & Hxn & _).
    rewrite Hun, Hxn, Hu, Hx, !zero_scale_samples. split; reflexivity.
Qed.


Lemma rows_matvec_3 (A : mat3) (v : vec) :
  exists a b c, matvec (rows A) v = [a; b; c].
Proof.
  destruct A as [[[[a b] c] [[d e] f]] [[g h] i]]. simpl. eauto.
Qed.

Lemma matvec_rows_zero (A : mat3) : matvec (rows A) [0; 0; 0] = [0; 0; 0].
Proof.
  destruct A as [[[[a b] c] [[d e] f]] [[g h] i]]. unfold matvec, dot. cbn.
  repeat (f_equal; try ring).
Qed.




Lemma clip_component lo hi v :
  lo <= hi ->
  lo <= Rmin hi (Rmax v lo) <= hi /\
  (v < lo -> Rmin hi (Rmax v lo) = lo) /\
  (hi < v -> Rmin hi (Rmax v lo) = hi) /\
  (lo <= v <= hi -> Rmin hi (Rmax v lo) = v).
Proof.
  intro H. unfold Rmin, Rmax.
  destruct (Rle_dec v lo); destruct (Rle_dec hi _); repeat split; intros; lra.
Qed.

Lemma bounds_ordered : lowerbound <= upperbound.
Proof. unfold lowerbound, upperbound. lra. Qed.

Lemma clip_saturated c :
  upperbound <= c -> Rmin upperbound (Rmax c lowerbound) = upperbound.
Proof.
  intro H. assert (Hb := bounds_ordered).
  destruct (clip_component lowerbound upperbound c Hb) as (_ & _ & Hhi & Hmid).
  destruct (Rle_lt_or_eq_dec _ _ H) as [Hlt|<-]; [apply Hhi, Hlt|apply Hmid; lra].
Qed.

(** With zero input noise, two inputs of the configured length whose clipped
    actuator commands agree give the same outcome. *)
Lemma simulate_same_clipped self x u u' rs :
  u_noise (base self) = 0 -> length u = length u' ->
  (let thr v := if threeinput self
       then vadd (vadd (vscale (nth 0 v 0 / 4) (nth 0 (_hover_mats self) []))
                       (vscale (nth 1 v 0 * L self / 4) (nth 1 (_hover_mats self) [])))
                 (vscale (nth 2 v 0 * L self / 4) (nth 2 (_hover_mats self) []))
       else v in
   _enforce_input_range (thr (vadd u (zeros (u_dim (base self))))) =
   _enforce_input_range (thr (vadd u' (zeros (u_dim (base self)))))) ->
  simulate self x u rs = simulate self x u' rs.
Proof.
  intros Hz Hlen E. cbv zeta beta in E.
  unfold simulate, simulate_locals, bind, _enforce_dimension, py_div, lift, ret, raise.
  cbv beta iota zeta. rewrite Hz, Hlen.
  destruct (negb (length x =? x_dim (base self))%nat); [reflexivity|].
  destruct (negb (length u' =? u_dim (base self))%nat); [reflexivity|].
  rewrite !random_normal_zero_scale.
  destruct (Req_dec_T (m self) 0); [reflexivity|].
  destruct (linalg_inv (Ib self)); [|reflexivity].
  destruct (random_normal 0 (x_noise (base self)) (x_dim (base self)) _) as [[xn|e] rs1];
    [|reflexivity].
  cbn [x1]. rewrite E. reflexivity.
Qed.

Lemma linalg_inv_diag a b c :
  a <> 0 -> b <> 0 -> c <> 0 ->
  linalg_inv [[a; 0; 0]; [0; b; 0]; [0; 0; c]] =
    Ok [[1 / a; 0; 0]; [0; 1 / b; 0]; [0; 0; 1 / c]].
Proof.
  intros Ha Hb Hc. unfold linalg_inv. cbv zeta.
  assert (HD : det3 a 0 0 0 b 0 0 0 c = a * b * c) by (unfold det3; ring).
  rewrite HD.
  assert (Hab : a * b <> 0) by (apply Rmult_integral_contrapositive_currified; assumption).
  assert (Habc : a * b * c <> 0) by (apply Rmult_integral_contrapositive_currified; assumption).
  destruct (Req_dec_T (a * b * c) 0) as [E|_]; [contradiction|].
  repeat (f_equal; try (field; repeat split; assumption)).
Qed.

Lemma snap_idempotent v : snap (snap v) = snap v.
Proof.
  destruct (snap_cases v) as [E|[E H]]; rewrite E; [apply snap_zero|].
  apply snap_large, H.
Qed.

(** One step from a level state at rest with the equilibrium input, zero
    noise and no cant: position and attitude stay (up to the cleanup) and
    the vertical velocity moves by the difference between weight and the
    clipped thrust. *)
Lemma level_step self p0 p1 p2 a0 a1 a2 rs :
  constructed self -> angle self = 0 ->
  u_noise (base self) = 0 -> x_noise (base self) = 0 ->
  Q_IB [0; 0; 0] = identity3 ->
  m self <> 0 -> Ixx self <> 0 -> Iyy self <> 0 -> Izz self <> 0 ->
  let c := Rmin upperbound (Rmax (m self * g self / 4) lowerbound) in
  exists loc b0 b1 b2 rs',
    simulate_locals self
      [p0; p1; p2; 0; 0; 0; 0; 0; 0; 0; 0; 0; a0; a1; a2] (u_e self) rs = (Ok loc, rs') /\
    F_ext loc = [0; 0; m self * g self - 4 * c] /\
    x1 loc = [snap p0; snap p1; snap p2;
              0; 0; snap (dt (base self) * ((m self * g self - 4 * c) / m self));
              0; 0; 0; 0; 0; 0; b0; b1; b2].
Proof.
  intros Hc Han Hun Hxn HQ Hm Hxx Hyy Hzz.
  destruct (constructed_inv self Hc)
    as (super & ti & mass & len & ixx & iyy & izz & an & -> & Hxd & Hud & _).
  cbn [base IonoCraft_fields angle m g Ixx Iyy Izz] in *. subst an.
  set (x := [p0; p1; p2; 0; 0; 0; 0; 0; 0; 0; 0; 0; a0; a1; a2]).
  destruct (simulate_locals_returns (IonoCraft_fields super ti mass len ixx iyy izz 0)
              x (u_e (IonoCraft_fields super ti mass len ixx iyy izz 0)) rs) as [loc Hloc].
  { cbn. rewrite Hxd. reflexivity. }
  { cbn. rewrite Hud. destruct ti; reflexivity. }
  { cbn. lra. }
  { cbn. lra. }
  { cbn. lra. }
  { eexists. apply linalg_inv_diag; assumption. }
  exists loc. assert (Hrun := Hloc).
  apply simulate_locals_eqns in Hloc. cbv zeta in Hloc.
  destruct Hloc as (_ & _ & Hypr & Hunv & Hnd & Hth & Hcl & HT & HTau & HFe & HFg
                    & (Ibi & HI & Hxdot) & Hxnv & He & Ha & H1 & _).
  cbn [base IonoCraft_fields idx_xyz idx_xyz_dot idx_ptp idx_ptp_dot idx_xyz_ddot
       m L threeinput angle g Ib u_e _hover_mats] in *.
  rewrite Hun, Hud, zero_scale_samples in Hunv.
  rewrite Hxn, Hxd, zero_scale_samples in Hxnv.
  rewrite (linalg_inv_diag _ _ _ Hxx Hyy Hzz) in HI. injection HI as <-.
  set (t := mass * 9.81 / 4) in *.
  set (c := Rmin upperbound (Rmax t lowerbound)).
  assert (Hthr : u_thrusters loc = [t; t; t; t]).
  { rewrite Hth, Hnd, Hunv. unfold t.
    destruct ti; unfold vadd, vscale; simpl; repeat (f_equal; try lra). }
  assert (Hclip : u_clipped loc = [c; c; c; c]).
  { rewrite Hcl, Hthr. reflexivity. }
  assert (HTv : T_tau_thrusters loc = [0; 0; 4 * c; 0; 0; 0]).
  { rewrite HT, Hclip. unfold force2thrust_torque, matvec, dot. simpl.
    rewrite sin_0, cos_0. repeat (f_equal; try lra). }
  assert (Hy : ypr loc = [0; 0; 0]) by (rewrite Hypr; reflexivity).
  rewrite HTv in HTau, HFe, HFg. simpl nth in HTau, HFe.
  rewrite Hy in *. rewrite HQ in HFe.
  assert (HFe0 : F_ext loc = [0; 0; mass * 9.81 - 4 * c]).
  { rewrite HFe. unfold vsub, matvec, dot. simpl. repeat (f_equal; try lra). }
  destruct (Q_BI [0; 0; 0]) as [[[[q11 q12] q13] [[q21 q22] q23]] [[q31 q32] q33]].
  destruct (W_inv [0; 0; 0]) as [[[[w11 w12] w13] [[w21 w22] w23]] [[w31 w32] w33]].
  assert (Hxd0 : xdot loc = [0; 0; 0; 0; 0; (mass * 9.81 - 4 * c) / mass;
                             0; 0; 0; 0; 0; 0; 0; 0; 0]).
  { rewrite Hxdot, HTau, HFe0, Hxd.
    unfold vsub, vscale, matmul, matvec, dot, col, zeros. simpl.
    repeat (f_equal; try lra). }
  rewrite Hxd0, Hxnv in He. rewrite H1, Ha, He, HFg, HFe0.
  unfold x, vadd, vscale, vdiv, matvec, dot, zeros. simpl.
  replace (p0 + dt super * 0 + 0) with p0 by lra.
  replace (p1 + dt super * 0 + 0) with p1 by lra.
  replace (p2 + dt super * 0 + 0) with p2 by lra.
  replace (0 + dt super * 0 + 0) with 0 by lra.
  replace (0 + dt super * ((mass * 9.81 - 4 * c) / mass) + 0)
    with (dt super * ((mass * 9.81 - 4 * c) / mass)) by lra.
  rewrite snap_zero. do 4 eexists. split; [exact Hrun|]. split; reflexivity.
Qed.

Lemma hover_step self p0 p1 p2 a0 a1 a2 rs :
  constructed self -> angle self = 0 ->
  u_noise (base self) = 0 -> x_noise (base self) = 0 ->
  Q_IB [0; 0; 0] = identity3 ->
  0 < m self -> m self * g self / 4 <= upperbound ->
  Ixx self <> 0 -> Iyy self <> 0 -> Izz self <> 0 ->
  exists loc b0 b1 b2 rs',
    simulate_locals self
      [p0; p1; p2; 0; 0; 0; 0; 0; 0; 0; 0; 0; a0; a1; a2] (u_e self) rs = (Ok loc, rs') /\
    F_ext loc = [0; 0; 0] /\
    x1 loc = [snap p0; snap p1; snap p2; 0; 0; 0; 0; 0; 0; 0; 0; 0; b0; b1; b2].
Proof.
  intros Hc Han Hun Hxn HQ Hm Htrim Hxx Hyy Hzz.
  assert (Hg : g self = 9.81).
  { destruct (constructed_inv self Hc) as (? & ? & ? & ? & ? & ? & ? & ? & -> & _).
    reflexivity. }
  destruct (level_step self p0 p1 p2 a0 a1 a2 rs) as (loc & b0 & b1 & b2 & rs' & H & HF & H1);
    try assumption; [lra|].
  destruct (clip_component lowerbound upperbound (m self * g self / 4) bounds_ordered)
    as (_ & _ & _ & Hmid).
  rewrite Hmid in HF, H1 by (unfold lowerbound; rewrite Hg in *; lra).
  replace (m self * g self - 4 * (m self * g self / 4)) with 0 in HF by lra.
  replace (dt (base self) * ((m self * g self - 4 * (m self * g self / 4)) / m self))
    with 0 in H1 by (field; lra).
  rewrite snap_zero in H1. exists loc, b0, b1, b2, rs'. auto.
Qed.

(** C3, as the code has it.  For a constructed model with zero noise and
    zero cant, positive mass, non-zero inertia entries, a trim thrust per
    actuator [m*g/4] that does not exceed the upper actuator bound, and a
    [Q_IB] that is the identity at zero attitude: from a state with zero
    linear velocity, attitude and angular velocity, a call of [simulate]
    with the equilibrium input sees a zero external force and returns a
    state with zero linear velocity; any number of calls return, keep the
    linear velocity at 0, and leave each position component as it was,
    except that a component of magnitude below 1e-15 is set to 0 by the
    first call. *)
Theorem hover_equilibrium self p0 p1 p2 a0 a1 a2 rs n :
  constructed self -> angle self = 0 ->
  u_noise (base self) = 0 -> x_noise (base self) = 0 ->
  Q_IB [0; 0; 0] = identity3 ->
  0 < m self -> m self * g self / 4 <= 500e-6 ->
  Ixx self <> 0 -> Iyy self <> 0 -> Izz self <> 0 ->
  let x := [p0; p1; p2; 0; 0; 0; 0; 0; 0; 0; 0; 0; a0; a1; a2] in
  (exists loc rs',
     simulate_locals self x (u_e self) rs = (Ok loc, rs') /\
     F_ext loc = [0; 0; 0] /\
     firstn 3 (skipn 3 (x1 loc)) = [0; 0; 0]) /\
  (exists v rs',
     simulate_n (S n) self x (u_e self) rs = (Ok v, rs') /\
     firstn 3 (skipn 3 v) = [0; 0; 0] /\
     firstn 3 v = [snap p0; snap p1; snap p2] /\
     (Forall (fun p => p = 0 \/ 1e-15 <= Rabs p) [p0; p1; p2] -> firstn 3 v = [p0; p1; p2])).
Proof.
  intros Hc Han Hun Hxn HQ Hm Htrim Hxx Hyy Hzz. cbv zeta.
  assert (Hone : forall p0 p1 p2 a0 a1 a2 rs,
            exists b0 b1 b2 rs',
              simulate self [p0; p1; p2; 0; 0; 0; 0; 0; 0; 0; 0; 0; a0; a1; a2] (u_e self) rs =
              (Ok [snap p0; snap p1; snap p2; 0; 0; 0; 0; 0; 0; 0; 0; 0; b0; b1; b2], rs')).
  { clear n p0 p1 p2 a0 a1 a2 rs. intros p0 p1 p2 a0 a1 a2 rs.
    destruct (hover_step self p0 p1 p2 a0 a1 a2 rs)
      as (loc & b0 & b1 & b2 & rs1 & H & _ & H1); try assumption.
    exists b0, b1, b2, rs1. rewrite <- H1.
    apply simulate_of_locals. exists loc. split; [exact H|reflexivity]. }
  assert (Hn : forall n p0 p1 p2 a0 a1 a2 rs,
            exists b0 b1 b2 rs',
              simulate_n (S n) self
                [p0; p1; p2; 0; 0; 0; 0; 0; 0; 0; 0; 0; a0; a1; a2] (u_e self) rs =
              (Ok [snap p0; snap p1; snap p2; 0; 0; 0; 0; 0; 0; 0; 0; 0; b0; b1; b2], rs')).
  { clear n p0 p1 p2 a0 a1 a2 rs.
    induction n as [|n IH]; intros p0 p1 p2 a0 a1 a2 rs;
      destruct (Hone p0 p1 p2 a0 a1 a2 rs) as (b0 & b1 & b2 & rs1 & H1).
    - exists b0, b1, b2, rs1. cbn [simulate_n]. unfold bind. rewrite H1. reflexivity.
    - destruct (IH (snap p0) (snap p1) (snap p2) b0 b1 b2 rs1) as (c0 & c1 & c2 & rs2 & H2).
      exists c0, c1, c2, rs2.
      change (simulate_n (S (S n)) self
                [p0; p1; p2; 0; 0; 0; 0; 0; 0; 0; 0; 0; a0; a1; a2] (u_e self) rs)
        with (bind (simulate self
                      [p0; p1; p2; 0; 0; 0; 0; 0; 0; 0; 0; 0; a0; a1; a2] (u_e self))
                   (fun x' => simulate_n (S n) self x' (u_e self)) rs).
      unfold bind at 1. rewrite H1, H2, !snap_idempotent. reflexivity. }
  split.
  - destruct (hover_step self p0 p1 p2 a0 a1 a2 rs)
      as (loc & b0 & b1 & b2 & rs1 & H & HF & H1); try assumption.
    exists loc, rs1. split; [exact H|]. split; [exact HF|]. rewrite H1. reflexivity.
  - destruct (Hn n p0 p1 p2 a0 a1 a2 rs) as (b0 & b1 & b2 & rs' & H).
    eexists _, rs'. split; [exact H|]. split; [reflexivity|]. split; [reflexivity|].
    intro Hall. cbn [firstn].
    inversion Hall as [|? ? H0 Hall1]; subst. inversion Hall1 as [|? ? H1' Hall2]; subst.
    inversion Hall2 as [|? ? H2' _]; subst.
    assert (Hk : forall p, p = 0 \/ 1e-15 <= Rabs p -> snap p = p).
    { intros p [->|Hge]; [apply snap_zero|apply snap_large; exact Hge]. }
    rewrite !Hk by assumption. reflexivity.
Qed.

(** ** The store model: what a call leaves untouched *)

Lemma framed_ret {A : Type} n (a : A) (Q : A -> Prop) : Q a -> framed n (h_ret a) Q.
Proof.
  intros HQ st Hn. cbn. repeat split; auto. intros a' E. injection E as <-. exact HQ.
Qed.

Lemma framed_raise {A : Type} n e (Q : A -> Prop) : framed n (h_raise e) Q.
Proof. intros st Hn. cbn. repeat split; auto. intros a' E. discriminate E. Qed.

Lemma framed_bind {A B : Type} n (c : MH A) (k : A -> MH B) (Q : A -> Prop) (Q' : B -> Prop) :
  framed n c Q -> (forall a, Q a -> framed n (k a) Q') -> framed n (h_bind c k) Q'.
Proof.
  intros Hc Hk st Hn. unfold h_bind.
  destruct (Hc st Hn) as (Hlen & Hfirst & Hinst & HQ).
  destruct (c st) as [[a|e] st1]; cbn [fst snd] in *.
  - destruct (Hk a (HQ a eq_refl) st1) as (Hlen' & Hfirst' & Hinst' & HQ'); [lia|].
    repeat split; [lia|congruence|congruence|exact HQ'].
  - repeat split; auto. intros b E. discriminate E.
Qed.

Lemma framed_weaken {A : Type} n (c : MH A) (Q Q' : A -> Prop) :
  framed n c Q -> (forall a, Q a -> Q' a) -> framed n c Q'.
Proof.
  intros Hc HQ st Hn. destruct (Hc st Hn) as (H1 & H2 & H3 & H4).
  repeat split; auto.
Qed.

Lemma framed_alloc n a : framed n (alloc a) (fun l => (n <= l)%nat).
Proof.
  intros st Hn. cbn. rewrite length_app. cbn. repeat split; [lia| |].
  - rewrite firstn_app. replace (n - length (arrays st))%nat with 0%nat by lia.
    cbn. apply app_nil_r.
  - intros l E. injection E as <-. exact Hn.
Qed.

Lemma framed_load n l : framed n (load l) (fun _ => True).
Proof.
  intros st Hn. unfold load. destruct (nth_error (arrays st) l); cbn; repeat split; auto.
Qed.

Lemma firstn_set_nth {A : Type} n l (a : A) (h : list A) :
  (n <= l)%nat -> firstn n (set_nth l a h) = firstn n h.
Proof.
  revert n l. induction h as [|b h IH]; intros n l Hl; [destruct l; reflexivity|].
  destruct l as [|l].
  - replace n with 0%nat by lia. reflexivity.
  - destruct n as [|n]; [reflexivity|]. cbn. f_equal. apply IH. lia.
Qed.

Lemma framed_store n l a : (n <= l)%nat -> framed n (store l a) (fun _ => True).
Proof.
  intros Hl st Hn. cbn. rewrite set_nth_length. repeat split; auto.
  apply firstn_set_nth, Hl.
Qed.

Lemma framed_get_self n : framed n get_self (fun _ => True).
Proof. intros st Hn. cbn. repeat split; auto. Qed.

Lemma framed_sample {A : Type} n (c : M A) : framed n (sample c) (fun _ => True).
Proof.
  intros st Hn. unfold sample. destruct (c (random st)) as [r rs]. cbn. repeat split; auto.
Qed.

Lemma framed_load1 n l : framed n (load1 l) (fun _ => True).
Proof.
  unfold load1. eapply framed_bind; [apply framed_load|].
  intros [v|A|b] _; [apply framed_ret; exact I|apply framed_raise|apply framed_raise].
Qed.

Lemma framed_load2 n l : framed n (load2 l) (fun _ => True).
Proof.
  unfold load2. eapply framed_bind; [apply framed_load|].
  intros [v|A|b] _; [apply framed_raise|apply framed_ret; exact I|apply framed_raise].
Qed.

Lemma framed_loadB n l : framed n (loadB l) (fun _ => True).
Proof.
  unfold loadB. eapply framed_bind; [apply framed_load|].
  intros [v|A|b] _; [apply framed_raise|apply framed_raise|apply framed_ret; exact I].
Qed.

Create HintDb framed discriminated.
#[local] Hint Resolve framed_alloc framed_load1 framed_load2 framed_loadB framed_get_self
  framed_sample framed_store : framed.

(** One statement of a computation: its own frame, then the rest. *)
Ltac framed_step :=
  cbv beta zeta; eapply framed_bind; [solve [eauto with framed]|cbv beta zeta; intros ? ?].

Lemma framed_np_array n v : framed n (np_array v) (fun l => (n <= l)%nat).
Proof. apply framed_alloc. Qed.

Lemma framed_np_array2 n A : framed n (np_array2 A) (fun l => (n <= l)%nat).
Proof. apply framed_alloc. Qed.

Lemma framed_np_unop n f a : framed n (np_unop f a) (fun l => (n <= l)%nat).
Proof. unfold np_unop. framed_step. apply framed_alloc. Qed.

Lemma framed_np_binop n f a b : framed n (np_binop f a b) (fun l => (n <= l)%nat).
Proof. unfold np_binop. do 2 framed_step. apply framed_alloc. Qed.

Lemma framed_np_matvec n A v : framed n (np_matvec A v) (fun l => (n <= l)%nat).
Proof. unfold np_matvec. do 2 framed_step. apply framed_alloc. Qed.

Lemma framed_np_matmul n A B : framed n (np_matmul A B) (fun l => (n <= l)%nat).
Proof. unfold np_matmul. do 2 framed_step. apply framed_alloc. Qed.

Lemma framed_np_item n a i : framed n (np_item a i) (fun _ => True).
Proof. unfold np_item. framed_step. apply framed_ret. exact I. Qed.

Lemma framed_np_take n a idx : framed n (np_take a idx) (fun l => (n <= l)%nat).
Proof. apply framed_np_unop. Qed.

Lemma framed_np_setitem n a idx vals :
  (n <= a)%nat -> framed n (np_setitem a idx vals) (fun _ => True).
Proof. intro Ha. unfold np_setitem. do 2 framed_step. apply framed_store, Ha. Qed.

Lemma framed_np_less n a c : framed n (np_less a c) (fun l => (n <= l)%nat).
Proof. unfold np_less. framed_step. apply framed_alloc. Qed.

Lemma framed_np_setmask n a mask c :
  (n <= a)%nat -> framed n (np_setmask a mask c) (fun _ => True).
Proof. intro Ha. unfold np_setmask. do 2 framed_step. apply framed_store, Ha. Qed.

Lemma framed_np_random_normal n mean scale size :
  framed n (np_random_normal mean scale size) (fun l => (n <= l)%nat).
Proof. unfold np_random_normal. framed_step. apply framed_alloc. Qed.

Lemma framed_np_linalg_inv n A : framed n (np_linalg_inv A) (fun l => (n <= l)%nat).
Proof. unfold np_linalg_inv. do 2 framed_step. apply framed_alloc. Qed.

Lemma framed_call_helper n f a : framed n (call_helper f a) (fun l => (n <= l)%nat).
Proof. unfold call_helper. framed_step. apply framed_alloc. Qed.

#[local] Hint Resolve framed_np_array framed_np_array2 framed_np_unop framed_np_binop
  framed_np_matvec framed_np_matmul framed_np_item framed_np_take framed_np_setitem
  framed_np_less framed_np_setmask framed_np_random_normal framed_np_linalg_inv
  framed_call_helper : framed.

(** Every write of [simulate_heap] goes to an array the call allocated. *)
Lemma simulate_heap_framed n x u :
  framed n (simulate_heap x u) (fun l => (n <= l)%nat).
Proof.
  unfold simulate_heap.
  repeat framed_step.
  eapply framed_bind.
  { match goal with |- context [threeinput ?a] => destruct (threeinput a) end.
    - repeat framed_step. eauto with framed.
    - apply framed_ret. eassumption. }
  cbv beta. intros ? ?.
  repeat framed_step.
  eapply framed_bind.
  { repeat framed_step. eauto with framed. }
  cbv beta. intros ? ?.
  repeat framed_step.
  apply framed_ret. assumption.
Qed.

(** ** The store model computes what [simulate] computes *)

Lemma h_bind_ok {A B : Type} (c : MH A) (k : A -> MH B) st a st' :
  c st = (Ok a, st') -> h_bind c k st = k a st'.
Proof. intro E. unfold h_bind. rewrite E. reflexivity. Qed.

Lemma h_bind_raise {A B : Type} (c : MH A) (k : A -> MH B) st e st' :
  c st = (Raise e, st') -> h_bind c k st = (Raise e, st').
Proof. intro E. unfold h_bind. rewrite E. reflexivity. Qed.

Lemma lookup_old (h0 y : list ndarray) l a :
  nth_error h0 l = Some a -> nth_error (h0 ++ y) l = Some a.
Proof.
  intro E. rewrite nth_error_app1; [exact E|].
  apply nth_error_Some. rewrite E. discriminate.
Qed.

Lemma lookup_young (h0 y : list ndarray) k a :
  nth_error y k = Some a -> nth_error (h0 ++ y) (length h0 + k)%nat = Some a.
Proof.
  intro E. rewrite nth_error_app2 by lia.
  replace (length h0 + k - length h0)%nat with k by lia. exact E.
Qed.

Lemma set_nth_young {A : Type} (h0 y : list A) k a :
  set_nth (length h0 + k)%nat a (h0 ++ y) = h0 ++ set_nth k a y.
Proof. induction h0 as [|b h0 IH]; cbn; [reflexivity|]. rewrite IH. reflexivity. Qed.

Section Run.
Variables (h0 y : list ndarray) (i : Instance) (r : RandomState).

Lemma run_alloc a : alloc a (mkStore (h0 ++ y) i r) =
    (Ok (length h0 + length y)%nat,
     mkStore (h0 ++ (y ++ [a])) i r).
Proof. unfold alloc. cbn. rewrite length_app, app_assoc. reflexivity. Qed.

Lemma run_load1 l v :
  nth_error (h0 ++ y) l = Some (Arr1 v) -> load1 l (mkStore (h0 ++ y) i r) =
    (Ok v, mkStore (h0 ++ y) i r).
Proof. intro E. unfold load1, h_bind, load. cbn. rewrite E. reflexivity. Qed.

Lemma run_load2 l A :
  nth_error (h0 ++ y) l = Some (Arr2 A) -> load2 l (mkStore (h0 ++ y) i r) =
    (Ok A, mkStore (h0 ++ y) i r).
Proof. intro E. unfold load2, h_bind, load. cbn. rewrite E. reflexivity. Qed.

Lemma run_loadB l b :
  nth_error (h0 ++ y) l = Some (ArrB b) -> loadB l (mkStore (h0 ++ y) i r) =
    (Ok b, mkStore (h0 ++ y) i r).
Proof. intro E. unfold loadB, h_bind, load. cbn. rewrite E. reflexivity. Qed.

Lemma run_store k a :
  store (length h0 + k)%nat a (mkStore (h0 ++ y) i r) =
    (Ok tt, mkStore (h0 ++ set_nth k a y) i r).
Proof. unfold store. cbn. rewrite set_nth_young. reflexivity. Qed.

Lemma run_get_self : get_self (mkStore (h0 ++ y) i r) =
    (Ok i, mkStore (h0 ++ y) i r).
Proof. reflexivity. Qed.

Lemma run_sample {A : Type} (c : M A) (a : A) r' :
  c r = (Ok a, r') -> sample c (mkStore (h0 ++ y) i r) =
    (Ok a, mkStore (h0 ++ y) i r').
Proof. intro E. unfold sample. cbn. rewrite E. reflexivity. Qed.

Lemma run_np_array v : np_array v (mkStore (h0 ++ y) i r) =
    (Ok (length h0 + length y)%nat,
     mkStore (h0 ++ (y ++ [Arr1 v])) i r).
Proof. apply run_alloc. Qed.

Lemma run_np_array2 A : np_array2 A (mkStore (h0 ++ y) i r) =
    (Ok (length h0 + length y)%nat,
     mkStore (h0 ++ (y ++ [Arr2 A])) i r).
Proof. apply run_alloc. Qed.

Lemma run_np_unop f a va :
  nth_error (h0 ++ y) a = Some (Arr1 va) ->
  np_unop f a (mkStore (h0 ++ y) i r) =
    (Ok (length h0 + length y)%nat,
     mkStore (h0 ++ (y ++ [Arr1 (f va)])) i r).
Proof.
  intro Ea. unfold np_unop.
  rewrite (h_bind_ok _ _ _ _ _ (run_load1 _ _ Ea)). apply run_alloc.
Qed.

Lemma run_np_binop f a b va vb :
  nth_error (h0 ++ y) a = Some (Arr1 va) ->
  nth_error (h0 ++ y) b = Some (Arr1 vb) ->
  np_binop f a b (mkStore (h0 ++ y) i r) =
    (Ok (length h0 + length y)%nat,
     mkStore (h0 ++ (y ++ [Arr1 (f va vb)])) i r).
Proof.
  intros Ea Eb. unfold np_binop.
  rewrite (h_bind_ok _ _ _ _ _ (run_load1 _ _ Ea)).
  rewrite (h_bind_ok _ _ _ _ _ (run_load1 _ _ Eb)). apply run_alloc.
Qed.

Lemma run_np_matvec A v mA vv :
  nth_error (h0 ++ y) A = Some (Arr2 mA) ->
  nth_error (h0 ++ y) v = Some (Arr1 vv) ->
  np_matvec A v (mkStore (h0 ++ y) i r) =
    (Ok (length h0 + length y)%nat,
     mkStore (h0 ++ (y ++ [Arr1 (matvec mA vv)])) i r).
Proof.
  intros Ea Eb. unfold np_matvec.
  rewrite (h_bind_ok _ _ _ _ _ (run_load2 _ _ Ea)).
  rewrite (h_bind_ok _ _ _ _ _ (run_load1 _ _ Eb)). apply run_alloc.
Qed.

Lemma run_np_matmul A B mA mB :
  nth_error (h0 ++ y) A = Some (Arr2 mA) ->
  nth_error (h0 ++ y) B = Some (Arr2 mB) ->
  np_matmul A B (mkStore (h0 ++ y) i r) =
    (Ok (length h0 + length y)%nat,
     mkStore (h0 ++ (y ++ [Arr2 (matmul mA mB)])) i r).
Proof.
  intros Ea Eb. unfold np_matmul.
  rewrite (h_bind_ok _ _ _ _ _ (run_load2 _ _ Ea)).
  rewrite (h_bind_ok _ _ _ _ _ (run_load2 _ _ Eb)). apply run_alloc.
Qed.

Lemma run_np_item a k va :
  nth_error (h0 ++ y) a = Some (Arr1 va) ->
  np_item a k (mkStore (h0 ++ y) i r) =
    (Ok (nth k va 0), mkStore (h0 ++ y) i r).
Proof.
  intro Ea. unfold np_item.
  rewrite (h_bind_ok _ _ _ _ _ (run_load1 _ _ Ea)). reflexivity.
Qed.

Lemma run_np_take a idx va :
  nth_error (h0 ++ y) a = Some (Arr1 va) ->
  np_take a idx (mkStore (h0 ++ y) i r) =
    (Ok (length h0 + length y)%nat,
     mkStore (h0 ++ (y ++ [Arr1 (take_idx va idx)])) i r).
Proof.
  intro Ea. unfold np_take.
  apply (run_np_unop (fun va => take_idx va idx) _ _ Ea).
Qed.

Lemma run_np_setitem k idx vals va vv :
  nth_error (h0 ++ y) (length h0 + k)%nat = Some (Arr1 va) ->
  nth_error (h0 ++ y) vals = Some (Arr1 vv) ->
  np_setitem (length h0 + k)%nat idx vals (mkStore (h0 ++ y) i r) =
    (Ok tt, mkStore (h0 ++ set_nth k (Arr1 (set_idx va idx vv)) y) i r).
Proof.
  intros Ea Eb. unfold np_setitem.
  rewrite (h_bind_ok _ _ _ _ _ (run_load1 _ _ Ea)).
  rewrite (h_bind_ok _ _ _ _ _ (run_load1 _ _ Eb)). apply run_store.
Qed.

Lemma run_np_less a c va :
  nth_error (h0 ++ y) a = Some (Arr1 va) ->
  np_less a c (mkStore (h0 ++ y) i r) =
    (Ok (length h0 + length y)%nat,
     mkStore (h0 ++ (y ++ [ArrB (map (fun v => if Rlt_dec v c then true else false) va)])) i r).
Proof.
  intro Ea. unfold np_less.
  rewrite (h_bind_ok _ _ _ _ _ (run_load1 _ _ Ea)). apply run_alloc.
Qed.

Lemma run_np_setmask k mask c va vm :
  nth_error (h0 ++ y) (length h0 + k)%nat = Some (Arr1 va) ->
  nth_error (h0 ++ y) mask = Some (ArrB vm) ->
  np_setmask (length h0 + k)%nat mask c (mkStore (h0 ++ y) i r) =
    (Ok tt, mkStore (h0 ++ set_nth k
               (Arr1 (map2 (fun v (b : bool) => if b then c else v) va vm)) y) i r).
Proof.
  intros Ea Eb. unfold np_setmask.
  rewrite (h_bind_ok _ _ _ _ _ (run_load1 _ _ Ea)).
  rewrite (h_bind_ok _ _ _ _ _ (run_loadB _ _ Eb)). apply run_store.
Qed.

Lemma run_np_random_normal mean scale size :
  ~ scale < 0 ->
  np_random_normal mean scale size (mkStore (h0 ++ y) i r) =
    (Ok (length h0 + length y)%nat,
     mkStore (h0 ++ (y ++ [Arr1 (map (fun k => mean + scale * gauss r k)
                                     (seq (drawn r) size))]))
             i (mkRandomState (gauss r) (drawn r + size))).
Proof.
  intro Hs. unfold np_random_normal, h_bind, sample, random_normal. cbn.
  destruct (Rlt_dec scale 0); [contradiction|].
  unfold alloc. cbn. rewrite length_app, app_assoc. reflexivity.
Qed.

Lemma run_np_linalg_inv A mA Ai :
  nth_error (h0 ++ y) A = Some (Arr2 mA) -> linalg_inv mA = Ok Ai ->
  np_linalg_inv A (mkStore (h0 ++ y) i r) =
    (Ok (length h0 + length y)%nat,
     mkStore (h0 ++ (y ++ [Arr2 Ai])) i r).
Proof.
  intros Ea Ei. unfold np_linalg_inv.
  rewrite (h_bind_ok _ _ _ _ _ (run_load2 _ _ Ea)).
  erewrite h_bind_ok by (apply run_sample; unfold lift; rewrite Ei; reflexivity).
  apply run_alloc.
Qed.

Lemma run_call_helper f a va :
  nth_error (h0 ++ y) a = Some (Arr1 va) ->
  call_helper f a (mkStore (h0 ++ y) i r) =
    (Ok (length h0 + length y)%nat,
     mkStore (h0 ++ (y ++ [Arr2 (rows (f va))])) i r).
Proof.
  intro Ea. unfold call_helper.
  rewrite (h_bind_ok _ _ _ _ _ (run_load1 _ _ Ea)). apply run_alloc.
Qed.

Lemma run_enforce_dimension d xv uv :
  length xv = x_dim d -> length uv = u_dim d ->
  sample (_enforce_dimension d xv uv) (mkStore (h0 ++ y) i r) =
    (Ok tt, mkStore (h0 ++ y) i r).
Proof.
  intros Hx Hu. apply run_sample. unfold _enforce_dimension.
  rewrite Hx, Hu, !Nat.eqb_refl. reflexivity.
Qed.

Lemma run_py_div a b :
  b <> 0 -> sample (py_div a b) (mkStore (h0 ++ y) i r) =
    (Ok (a / b), mkStore (h0 ++ y) i r).
Proof.
  intro Hb. apply run_sample. unfold py_div.
  destruct (Req_dec_T b 0); [contradiction|reflexivity].
Qed.
End Run.

Lemma h_bind_assoc {A B C : Type} (c : MH A) (k1 : A -> MH B) (k2 : B -> MH C) st :
  h_bind (h_bind c k1) k2 st = h_bind c (fun a => h_bind (k1 a) k2) st.
Proof. unfold h_bind. destruct (c st) as [[a|e] st1]; reflexivity. Qed.

Lemma run_ret {A : Type} (a : A) st : h_ret a st = (Ok a, st).
Proof. reflexivity. Qed.

Ltac lookup :=
  first [ apply lookup_young; reflexivity
        | apply lookup_old; eassumption ].

Ltac run_prim :=
  lazymatch goal with
  | |- get_self _ = _ => eapply run_get_self
  | |- h_ret _ _ = _ => eapply run_ret
  | |- np_array _ _ = _ => eapply run_np_array
  | |- np_array2 _ _ = _ => eapply run_np_array2
  | |- np_take _ _ _ = _ => eapply run_np_take; lookup
  | |- np_unop _ _ _ = _ => eapply run_np_unop; lookup
  | |- np_binop _ _ _ _ = _ => eapply run_np_binop; lookup
  | |- np_matvec _ _ _ = _ => eapply run_np_matvec; lookup
  | |- np_matmul _ _ _ = _ => eapply run_np_matmul; lookup
  | |- np_item _ _ _ = _ => eapply run_np_item; lookup
  | |- np_setitem _ _ _ _ = _ => eapply run_np_setitem; lookup
  | |- np_less _ _ _ = _ => eapply run_np_less; lookup
  | |- np_setmask _ _ _ _ = _ => eapply run_np_setmask; lookup
  | |- call_helper _ _ _ = _ => eapply run_call_helper; lookup
  | |- load1 _ _ = _ => eapply run_load1; lookup
  | |- load2 _ _ = _ => eapply run_load2; lookup
  | |- alloc _ _ = _ => eapply run_alloc
  | |- np_random_normal _ _ _ _ = _ => eapply run_np_random_normal; assumption
  | |- np_linalg_inv _ _ = _ => eapply run_np_linalg_inv; [lookup|eassumption]
  | |- sample (_enforce_dimension _ _ _) _ = _ => eapply run_enforce_dimension; assumption
  | |- sample (py_div _ _) _ = _ => eapply run_py_div; assumption
  end.

Ltac run_step :=
  rewrite ?h_bind_assoc;
  erewrite h_bind_ok by run_prim;
  cbv beta zeta; cbn [app length set_nth gauss drawn].

Lemma snap_by_mask (a : vec) :
  map2 (fun v (b : bool) => if b then 0 else v) a
    (map (fun v => if Rlt_dec v snap_eps then true else false) (map Rabs a)) =
  map snap a.
Proof.
  induction a as [|v a IH]; cbn; [reflexivity|]. rewrite IH. f_equal.
  unfold snap. destruct (Rlt_dec (Rabs v) snap_eps); reflexivity.
Qed.

Lemma simulate_heap_refines_ok st self xl ul x u v rs' :
  represents st self -> holds st xl x -> holds st ul u ->
  simulate self x u (random st) = (Ok v, rs') ->
  exists l st',
    simulate_heap xl ul st = (Ok l, st') /\
    random st' = rs' /\ holds st' l v.
Proof.
  intros (Hattrs & HIb & Hue & Hhov) Hx Hu Hsim.
  destruct st as [h0 inst rs]. unfold holds in *. cbn [arrays instance random] in *.
  assert (Hh0 := Hhov 0%nat ltac:(lia)). assert (Hh1 := Hhov 1%nat ltac:(lia)).
  assert (Hh2 := Hhov 2%nat ltac:(lia)). clear Hhov.
  simulate_inv Hsim. injection Hsim as <- <-. cbn [x1].
  repeat match goal with
         | E : (length _ =? _)%nat = true |- _ => apply Nat.eqb_eq in E
         end.
  assert (E : mkStore h0 inst rs = mkStore (h0 ++ []) inst rs)
    by (rewrite app_nil_r; reflexivity).
  rewrite E. clear E. subst self.
  unfold simulate_heap.
  destruct (threeinput (attrs inst)) eqn:E3; cbv iota.
  - do 2 eexists. split; [|split].
    + repeat run_step. rewrite E3. repeat run_step. reflexivity.
    + reflexivity.
    + cbn [arrays]. apply lookup_young. cbn [nth_error]. rewrite snap_by_mask.
      reflexivity.
  - do 2 eexists. split; [|split].
    + repeat run_step. rewrite E3. repeat run_step. reflexivity.
    + reflexivity.
    + cbn [arrays]. apply lookup_young. cbn [nth_error]. rewrite snap_by_mask.
      reflexivity.
Qed.

Section RunRaise.
Variables (h0 y : list ndarray) (i : Instance) (r : RandomState).

Lemma run_enforce_dimension_raise d xv uv :
  length xv <> x_dim d \/ length uv <> u_dim d ->
  sample (_enforce_dimension d xv uv) (mkStore (h0 ++ y) i r) =
    (Raise DimensionMismatchError, mkStore (h0 ++ y) i r).
Proof.
  intro Hbad. unfold sample, _enforce_dimension. cbn.
  destruct (length xv =? x_dim d)%nat eqn:E1; cbn; [|reflexivity].
  destruct (length uv =? u_dim d)%nat eqn:E2; cbn; [|reflexivity].
  apply Nat.eqb_eq in E1, E2. destruct Hbad; contradiction.
Qed.

Lemma run_np_random_normal_raise mean scale size :
  scale < 0 -> np_random_normal mean scale size (mkStore (h0 ++ y) i r) =
    (Raise ValueError, mkStore (h0 ++ y) i r).
Proof.
  intro Hs. unfold np_random_normal, h_bind, sample, random_normal. cbn.
  destruct (Rlt_dec scale 0); [reflexivity|contradiction].
Qed.

Lemma run_py_div_raise a b :
  b = 0 -> sample (py_div a b) (mkStore (h0 ++ y) i r) =
    (Raise ZeroDivisionError, mkStore (h0 ++ y) i r).
Proof.
  intro Hb. unfold sample, py_div. cbn.
  destruct (Req_dec_T b 0); [reflexivity|contradiction].
Qed.

Lemma run_np_linalg_inv_raise A mA e :
  nth_error (h0 ++ y) A = Some (Arr2 mA) -> linalg_inv mA = Raise e ->
  np_linalg_inv A (mkStore (h0 ++ y) i r) =
    (Raise e, mkStore (h0 ++ y) i r).
Proof.
  intros Ea Ei. unfold np_linalg_inv.
  rewrite (h_bind_ok _ _ _ _ _ (run_load2 h0 y i r _ _ Ea)).
  apply h_bind_raise. unfold sample, lift. cbn. rewrite Ei. reflexivity.
Qed.
End RunRaise.

Ltac run_raise :=
  rewrite ?h_bind_assoc;
  erewrite h_bind_raise;
  [reflexivity
  |lazymatch goal with
   | |- sample (_enforce_dimension _ _ _) _ = _ =>
       eapply run_enforce_dimension_raise;
       first [left; apply Nat.eqb_neq; assumption|right; apply Nat.eqb_neq; assumption]
   | |- np_random_normal _ _ _ _ = _ => eapply run_np_random_normal_raise; assumption
   | |- sample (py_div _ _) _ = _ => eapply run_py_div_raise; assumption
   | |- np_linalg_inv _ _ = _ => eapply run_np_linalg_inv_raise; [lookup|eassumption]
   end].

Lemma simulate_heap_refines_raise st self xl ul x u e rs' :
  represents st self -> holds st xl x -> holds st ul u ->
  simulate self x u (random st) = (Raise e, rs') ->
  exists st',
    simulate_heap xl ul st = (Raise e, st') /\ random st' = rs'.
Proof.
  intros (Hattrs & HIb & Hue & Hhov) Hx Hu Hsim.
  destruct st as [h0 inst rs]. unfold holds in *. cbn [arrays instance random] in *.
  assert (Hh0 := Hhov 0%nat ltac:(lia)). assert (Hh1 := Hhov 1%nat ltac:(lia)).
  assert (Hh2 := Hhov 2%nat ltac:(lia)). clear Hhov.
  assert (E : mkStore h0 inst rs = mkStore (h0 ++ []) inst rs)
    by (rewrite app_nil_r; reflexivity).
  rewrite E. clear E. subst self.
  unfold simulate_heap.
  destruct (threeinput (attrs inst)) eqn:E3;
    unfold simulate, simulate_locals, bind, _enforce_dimension, random_normal,
      py_div, lift, ret, raise in Hsim;
    cbv beta iota zeta in Hsim;
    repeat match type of Hsim with
      | context [((length ?a) =? ?b)%nat] => destruct (length a =? b)%nat eqn:?
      | context [Rlt_dec ?a 0] => destruct (Rlt_dec a 0)
      | context [Req_dec_T ?a 0] => destruct (Req_dec_T a 0)
      | context [linalg_inv ?a] => destruct (linalg_inv a) eqn:?
      | _ => progress (cbv beta iota zeta delta [negb] in Hsim)
      end;
    try discriminate Hsim;
    injection Hsim as <- <-;
    repeat match goal with
           | E : (length _ =? _)%nat = true |- _ => apply Nat.eqb_eq in E
           end;
    eexists; (split; [repeat run_step; rewrite ?E3; repeat run_step; run_raise|reflexivity]).
Qed.

(** C2. A call of [simulate] on a model returned by the constructor, with a
    state whose length is not 15 or an input whose length is not the
    configured one (3 in three-input mode, 4 in four-input mode), raises
    [DimensionMismatchError] at its first statement, before any numerical
    work: the random source comes back as it was (no sample drawn), no
    local is computed, and in the store model the whole store comes back
    as it was (no array allocated or written). *)
Theorem simulate_dimension_mismatch self x u rs :
  constructed self ->
  length x <> 15%nat \/ length u <> (if threeinput self then 3 else 4)%nat ->
  simulate_locals self x u rs = (Raise DimensionMismatchError, rs) /\
  simulate self x u rs = (Raise DimensionMismatchError, rs) /\
  (forall st xl ul,
     attrs (instance st) = self -> holds st xl x -> holds st ul u ->
     simulate_heap xl ul st = (Raise DimensionMismatchError, st)).
Proof.
  intros Hc Hbad.
  destruct (constructed_inv self Hc)
    as (super & ti & mass & len & ixx & iyy & izz & an & -> & Hx & Hu & _).
  cbn [base IonoCraft_fields threeinput] in *.
  assert (Hbad' : length x <> x_dim super \/ length u <> u_dim super)
    by (rewrite Hx, Hu; exact Hbad).
  assert (H : simulate_locals
                (IonoCraft_fields super ti mass len ixx iyy izz an) x u rs
              = (Raise DimensionMismatchError, rs)).
  { unfold simulate_locals, bind, _enforce_dimension.
    cbn [base IonoCraft_fields].
    destruct (length x =? x_dim super)%nat eqn:E1; simpl; [|reflexivity].
    destruct (length u =? u_dim super)%nat eqn:E2; simpl; [|reflexivity].
    apply Nat.eqb_eq in E1, E2. destruct Hbad'; contradiction. }
  split; [exact H|]. split; [unfold simulate, bind; rewrite H; reflexivity|].
  intros [h0 inst r] xl ul Hattrs Hxl Hul.
  unfold holds in *. cbn [arrays instance random] in *.
  assert (E : mkStore h0 inst r = mkStore (h0 ++ []) inst r)
    by (rewrite app_nil_r; reflexivity).
  rewrite E at 1. clear E. unfold simulate_heap.
  do 3 run_step.
  erewrite h_bind_raise;
    [|eapply run_enforce_dimension_raise; rewrite Hattrs; exact Hbad'].
  rewrite app_nil_r. reflexivity.
Qed.

Lemma nth_error_firstn_eq {A : Type} (n : nat) (l l' : list A) :
  firstn n l' = firstn n l ->
  forall k, (k < n)%nat -> nth_error l' k = nth_error l k.
Proof.
  revert l l'. induction n as [|n IH]; intros l l' E k Hk; [lia|].
  destruct l as [|a l], l' as [|a' l']; cbn in E; try discriminate E; [reflexivity|].
  injection E as -> E. destruct k as [|k]; [reflexivity|]. cbn. apply (IH _ _ E). lia.
Qed.

(** C9. A call of [simulate] writes to no array that existed before it:
    the caller's [x] and [u], the model's [Ib], [u_e] and hover arrays
    (every array object of the store, in fact) hold afterwards what they
    held before, the attribute table of the instance is unchanged, and the
    returned reference is a new one.  When the store holds a constructed
    model, the returned array is the 15-vector [simulate] computes. *)
Theorem simulate_leaves_existing_arrays st xl ul r st' :
  simulate_heap xl ul st = (r, st') ->
  (forall l, (l < length (arrays st))%nat ->
     nth_error (arrays st') l = nth_error (arrays st) l) /\
  instance st' = instance st /\
  (forall l, r = Ok l -> (length (arrays st) <= l)%nat) /\
  (forall self x u,
     represents st self -> holds st xl x -> holds st ul u ->
     represents st' self /\ holds st' xl x /\ holds st' ul u /\
     (forall l, r = Ok l ->
        exists v, holds st' l v /\
                  simulate self x u (random st) = (Ok v, random st') /\
                  (constructed self -> length v = 15%nat))).
Proof.
  intro Hrun.
  destruct (simulate_heap_framed (length (arrays st)) xl ul st (le_n _))
    as (Hlen & Hfirst & Hinst & Hfresh).
  rewrite Hrun in *. cbn [fst snd] in *.
  assert (Hkeep : forall l, (l < length (arrays st))%nat ->
                    nth_error (arrays st') l = nth_error (arrays st) l)
    by (apply nth_error_firstn_eq; exact Hfirst).
  assert (Hold : forall l a, nth_error (arrays st) l = Some a ->
                   nth_error (arrays st') l = Some a).
  { intros l a E. rewrite Hkeep; [exact E|]. apply nth_error_Some. rewrite E. discriminate. }
  split; [exact Hkeep|]. split; [exact Hinst|]. split; [exact Hfresh|].
  intros self x u Hrep Hx Hu.
  assert (Hrep' : represents st' self).
  { destruct Hrep as (Ha & HIb & Hue & Hhov). unfold represents, holds in *.
    rewrite Hinst. repeat split; auto. }
  split; [exact Hrep'|]. split; [apply Hold, Hx|]. split; [apply Hold, Hu|].
  intros l ->.
  destruct (simulate self x u (random st)) as [[v|e] rs'] eqn:Hsim.
  - destruct (simulate_heap_refines_ok st self xl ul x u v rs' Hrep Hx Hu Hsim)
      as (l' & st2 & Hrun2 & Hrs & Hv).
    rewrite Hrun in Hrun2. injection Hrun2 as <- <-.
    exists v. split; [exact Hv|]. split; [rewrite Hrs; reflexivity|].
    intro Hc. apply simulate_of_locals in Hsim as (loc & Hloc & ->).
    rewrite (simulate_locals_length _ _ _ _ _ _ Hloc).
    apply simulate_locals_eqns in Hloc. cbv zeta in Hloc.
    destruct Hloc as ((Hlx & _) & _). rewrite Hlx.
    destruct (constructed_inv self Hc) as (? & ? & ? & ? & ? & ? & ? & ? & -> & Hxd & _).
    exact Hxd.
  - destruct (simulate_heap_refines_raise st self xl ul x u e rs' Hrep Hx Hu Hsim)
      as (st2 & Hrun2 & _).
    rewrite Hrun in Hrun2. discriminate Hrun2.
Qed.

(** C1, as the code has it.  Construction checks the timestep only.  It raises
    [InvalidParameterError] exactly when [dt] is not positive (the check of
    the base-class initialiser); for every value of the mass and of the
    inertia entries, positive or not, construction with a positive [dt]
    returns a model that holds the arguments as given. *)
Theorem construction_checks_timestep_only
    (step : R) (three : bool) (mass arm ixx iyy izz cant xn un : R) :
  let made := IonoCraft_init step three mass arm ixx iyy izz cant xn un in
  (made = Raise InvalidParameterError <-> step <= 0) /\
  (made = Ok (IonoCraft_fields
                (mkDynamics _state_dict (_input_dict three) step
                   15 (if three then 3 else 4) xn un)
                three mass arm ixx iyy izz cant) <-> 0 < step) /\
  (forall self, made = Ok self ->
     m self = mass /\ L self = arm /\ angle self = cant /\
     Ixx self = ixx /\ Iyy self = iyy /\ Izz self = izz /\
     Ib self = [[ixx; 0; 0]; [0; iyy; 0]; [0; 0; izz]] /\ g self = 9.81 /\
     dt (base self) = step /\ 0 < step).
Proof.
  cbv zeta. unfold IonoCraft_init, Dynamics_init.
  destruct (Rlt_dec 0 step) as [Hpos|Hneg].
  - split; [split; [discriminate|lra]|]. split.
    + split; [intros _; exact Hpos|]. intros _. destruct three; reflexivity.
    + intros self E. injection E as <-. cbn. repeat split; auto.
  - split; [split; [lra|reflexivity]|]. split.
    + split; [discriminate|]. intro. contradiction.
    + intros self E. discriminate E.
Qed.

End Simulate.

(** ** Instances *)

Lemma quiet_model_constructed : constructed quiet_model.
Proof.
  exists 0.01, true, default_m, default_L, default_Ixx, default_Iyy, default_Izz,
    default_angle, 0, 0.
  unfold IonoCraft_init, Dynamics_init.
  destruct (Rlt_dec 0 0.01) as [_|H]; [reflexivity|exfalso; lra].
Qed.

Lemma heavy_model_constructed : constructed heavy_model.
Proof.
  exists 1, true, 1, default_L, default_Ixx, default_Iyy, default_Izz, default_angle, 0, 0.
  unfold IonoCraft_init, Dynamics_init.
  destruct (Rlt_dec 0 1) as [_|H]; [reflexivity|exfalso; lra].
Qed.

Lemma default_inertia_nonzero :
  default_Ixx <> 0 /\ default_Iyy <> 0 /\ default_Izz <> 0.
Proof. unfold default_Ixx, default_Iyy, default_Izz. repeat split; lra. Qed.

Lemma Q_IB_std_level : Q_IB_std [0; 0; 0] = identity3.
Proof.
  unfold Q_IB_std, identity3. cbn [nth]. rewrite sin_0, cos_0.
  repeat (f_equal; try lra).
Qed.


Lemma simulate_dimension_mismatch_witness :
  simulate_locals Q_IB_std Q_BI_std W_inv_std quiet_model (zeros 14) [1; 0; 0] rs_a
    = (Raise DimensionMismatchError, rs_a) /\
  simulate Q_IB_std Q_BI_std W_inv_std quiet_model (zeros 14) [1; 0; 0] rs_a
    = (Raise DimensionMismatchError, rs_a) /\
  (forall st xl ul,
     attrs (instance st) = quiet_model -> holds st xl (zeros 14) -> holds st ul [1; 0; 0] ->
     simulate_heap Q_IB_std Q_BI_std W_inv_std xl ul st = (Raise DimensionMismatchError, st)).
Proof.
  apply (simulate_dimension_mismatch Q_IB_std Q_BI_std W_inv_std quiet_model
           (zeros 14) [1; 0; 0] rs_a quiet_model_constructed).
  left. cbn. lia.
Defined.

Lemma hover_equilibrium_witness :
  let x := [1; 2; 3; 0; 0; 0; 0; 0; 0; 0; 0; 0; 4; 5; 6] in
  (exists loc rs',
     simulate_locals Q_IB_std Q_BI_std W_inv_std quiet_model x (u_e quiet_model) rs_a
       = (Ok loc, rs') /\
     F_ext loc = [0; 0; 0] /\
     firstn 3 (skipn 3 (x1 loc)) = [0; 0; 0]) /\
  (exists v rs',
     simulate_n Q_IB_std Q_BI_std W_inv_std 3 quiet_model x (u_e quiet_model) rs_a
       = (Ok v, rs') /\
     firstn 3 (skipn 3 v) = [0; 0; 0] /\
     firstn 3 v = [snap 1; snap 2; snap 3] /\
     (Forall (fun p => p = 0 \/ 1e-15 <= Rabs p) [1; 2; 3] -> firstn 3 v = [1; 2; 3])).
Proof.
  destruct default_inertia_nonzero as (Hx & Hy & Hz).
  apply (hover_equilibrium Q_IB_std Q_BI_std W_inv_std quiet_model 1 2 3 4 5 6 rs_a 2
           quiet_model_constructed eq_refl eq_refl eq_refl Q_IB_std_level).
  - cbn. unfold default_m. lra.
  - cbn. unfold default_m. lra.
  - exact Hx.
  - exact Hy.
  - exact Hz.
Defined.



Lemma simulate_zero_noise_deterministic_witness :
  fst (simulate Q_IB_std Q_BI_std W_inv_std quiet_model (zeros 15) (u_e quiet_model) rs_a) =
  fst (simulate Q_IB_std Q_BI_std W_inv_std quiet_model (zeros 15) (u_e quiet_model) rs_b).
Proof.
  exact (proj1 (simulate_zero_noise_deterministic Q_IB_std Q_BI_std W_inv_std quiet_model
                  (zeros 15) (u_e quiet_model) rs_a rs_b eq_refl eq_refl)).
Defined.


Lemma quiet_store_represents : represents quiet_store quiet_model.
Proof.
  unfold represents, holds. cbn. repeat split.
  intros [|[|[|k]]] Hk; cbn; try reflexivity. lia.
Qed.

Lemma simulate_leaves_existing_arrays_witness :
  let out := simulate_heap Q_IB_std Q_BI_std W_inv_std 0%nat 1%nat quiet_store in
  (forall l, (l < 6)%nat -> nth_error (arrays (snd out)) l = nth_error (arrays quiet_store) l) /\
  instance (snd out) = instance quiet_store /\
  (forall l, fst out = Ok l -> (6 <= l)%nat) /\
  represents (snd out) quiet_model /\
  holds (snd out) 0%nat (zeros 15) /\ holds (snd out) 1%nat (u_e quiet_model).
Proof.
  cbv zeta.
  destruct (simulate_leaves_existing_arrays Q_IB_std Q_BI_std W_inv_std quiet_store
              0%nat 1%nat _ _ (surjective_pairing _)) as (Hkeep & Hinst & Hfresh & Hrep).
  destruct (Hrep quiet_model (zeros 15) (u_e quiet_model)
              quiet_store_represents eq_refl eq_refl) as (Hr & Hx & Hu & _).
  split; [exact Hkeep|]. split; [exact Hinst|]. split; [exact Hfresh|].
  split; [exact Hr|]. split; [exact Hx|exact Hu].
Defined.

(** ** Counterexamples *)

(** C1 does not hold for the mass: with a mass of -1 (and a positive
    timestep) construction returns a model. *)
Lemma construction_accepts_nonpositive_mass :
  -1 <= 0 /\
  exists self,
    IonoCraft_init 0.01 true (-1) default_L default_Ixx default_Iyy default_Izz
      default_angle default_x_noise default_u_noise = Ok self /\
    m self = -1.
Proof.
  split; [lra|].
  unfold IonoCraft_init, Dynamics_init.
  destruct (Rlt_dec 0 0.01) as [_|H]; [|exfalso; lra].
  eexists. split; reflexivity.
Qed.

(** C3 does not hold for every model: a constructed model with zero noise and zero cant
    whose trim thrust exceeds the actuator range (mass 1) leaves a state at
    rest with a vertical velocity of 9.808 after one call. *)
Lemma heavy_model_does_not_hover :
  constructed heavy_model /\ angle heavy_model = 0 /\
  u_noise (base heavy_model) = 0 /\ x_noise (base heavy_model) = 0 /\
  exists loc v rs',
    simulate_locals Q_IB_std Q_BI_std W_inv_std heavy_model
      [0; 0; 0; 0; 0; 0; 0; 0; 0; 0; 0; 0; 0; 0; 0] (u_e heavy_model) rs_a = (Ok loc, rs') /\
    simulate Q_IB_std Q_BI_std W_inv_std heavy_model
      [0; 0; 0; 0; 0; 0; 0; 0; 0; 0; 0; 0; 0; 0; 0] (u_e heavy_model) rs_a = (Ok v, rs') /\
    F_ext loc = [0; 0; 9.808] /\
    nth 5 v 0 = 9.808 /\ nth 5 v 0 <> 0.
Proof.
  split; [exact heavy_model_constructed|]. do 3 (split; [reflexivity|]).
  destruct default_inertia_nonzero as (Hx & Hy & Hz).
  destruct (level_step Q_IB_std Q_BI_std W_inv_std heavy_model 0 0 0 0 0 0 rs_a
              heavy_model_constructed eq_refl eq_refl eq_refl Q_IB_std_level)
    as (loc & b0 & b1 & b2 & rs' & H & HF & H1); try assumption.
  { cbn. lra. }
  cbn [heavy_model IonoCraft_fields m g base dt] in HF, H1.
  rewrite clip_saturated in HF, H1 by (unfold upperbound; lra).
  replace (1 * 9.81 - 4 * upperbound) with 9.808 in HF by (unfold upperbound; lra).
  replace (1 * ((1 * 9.81 - 4 * upperbound) / 1)) with 9.808 in H1
    by (unfold upperbound; lra).
  rewrite (snap_large 9.808) in H1
    by (rewrite Rabs_pos_eq by lra; unfold snap_eps; lra).
  exists loc, (x1 loc), rs'. split; [exact H|].
  split; [apply simulate_of_locals; exists loc; split; [exact H|reflexivity]|].
  split; [exact HF|]. rewrite H1. cbn [nth]. split; [reflexivity|lra].
Qed.

(** ** Further properties: clipping, wrench matrix, Euler rates, index tables *)

Lemma model_of_constructed step three mass arm ixx iyy izz cant xn un :
  0 < step -> constructed (model_of step three mass arm ixx iyy izz cant xn un).
Proof.
  intro Hpos. exists step, three, mass, arm, ixx, iyy, izz, cant, xn, un.
  unfold IonoCraft_init, Dynamics_init, model_of.
  destruct (Rlt_dec 0 step) as [_|H]; [|contradiction].
  destruct three; reflexivity.
Qed.

Lemma clip_in_range_id lo hi v : lo <= v <= hi -> Rmin hi (Rmax v lo) = v.
Proof.
  intro H. unfold Rmin, Rmax.
  destruct (Rle_dec v lo); destruct (Rle_dec hi _); lra.
Qed.

Lemma clip_range lo hi v : lo <= hi -> lo <= Rmin hi (Rmax v lo) <= hi.
Proof.
  intro H. unfold Rmin, Rmax.
  destruct (Rle_dec v lo); destruct (Rle_dec hi _); lra.
Qed.

Lemma enforce_input_range_in_range (input : vec) :
  Forall (fun c => 0 <= c <= 500e-6) (_enforce_input_range input).
Proof.
  assert (Hb : lowerbound <= upperbound) by (unfold lowerbound, upperbound; lra).
  unfold _enforce_input_range, clip.
  apply Forall_forall. intros c Hc. apply in_map_iff in Hc as (v & <- & _).
  apply (clip_range lowerbound upperbound v Hb).
Qed.

Lemma enforce_input_range_id (input : vec) :
  Forall (fun c => 0 <= c <= 500e-6) input -> _enforce_input_range input = input.
Proof.
  unfold _enforce_input_range, clip.
  intro Hall. induction Hall as [|v l Hv _ IH]; [reflexivity|].
  cbn [map]. rewrite IH. f_equal. apply clip_in_range_id. exact Hv.
Qed.

(** X1. [_enforce_input_range] keeps the length of the command, puts every
    component into [0, 500e-6], changes nothing when applied a second time,
    and leaves a command that is already in the range as it is. *)
Theorem enforce_input_range_saturates (input : vec) :
  length (_enforce_input_range input) = length input /\
  Forall (fun c => 0 <= c <= 500e-6) (_enforce_input_range input) /\
  _enforce_input_range (_enforce_input_range input) = _enforce_input_range input /\
  (Forall (fun c => 0 <= c <= 500e-6) input -> _enforce_input_range input = input).
Proof.
  split; [apply length_map|]. split; [apply enforce_input_range_in_range|].
  split; [|apply enforce_input_range_id].
  apply enforce_input_range_id, enforce_input_range_in_range.
Qed.

(** X2. Equal actuator commands give a pure thrust along the body z axis,
    whatever the cant angle and the arm length: no lateral force and no
    torque about any axis. *)
Theorem equal_commands_give_pure_thrust (self : IonoCraft) (cant c : R) :
  matvec (force2thrust_torque self cant) [c; c; c; c] =
    [0; 0; 4 * c * cos cant; 0; 0; 0].
Proof.
  unfold force2thrust_torque, matvec, dot. cbn [map map2 fold_right].
  repeat (f_equal; try ring).
Qed.

(** X3. Without cant the thrusters give no lateral force and no yaw torque,
    whatever the four commands are; the thrust is their sum and the two
    remaining torques are the arm length times the front-back and the
    left-right differences. *)
Theorem zero_cant_wrench (self : IonoCraft) (f4 f3 f2 f1 : R) :
  matvec (force2thrust_torque self 0) [f4; f3; f2; f1] =
    [0; 0; f4 + f3 + f2 + f1; 0;
     L self * (f2 + f1 - f4 - f3); L self * (f4 + f1 - f3 - f2)].
Proof.
  unfold force2thrust_torque, matvec, dot. cbn [map map2 fold_right].
  rewrite sin_0, cos_0. repeat (f_equal; try ring).
Qed.

(** X4. [pqr2rpy] needs two entries in [x0]: on a shorter [x0] it raises
    [IndexError], and only then.  On a longer one it raises
    [ZeroDivisionError] where the cosine of the second entry is zero and
    [ValueError] on rates that are not three; otherwise it returns three
    Euler rates.  At zero first and second entry it is the identity on the
    body rates, and it maps zero body rates to zero Euler rates. *)
Theorem pqr2rpy_level (x0 pqr : vec) :
  ((length x0 < 2)%nat <-> pqr2rpy x0 pqr = Raise IndexError) /\
  ((2 <= length x0)%nat -> cos (nth 1 x0 0) = 0 ->
     pqr2rpy x0 pqr = Raise ZeroDivisionError) /\
  ((2 <= length x0)%nat -> cos (nth 1 x0 0) <> 0 -> length pqr <> 3%nat ->
     pqr2rpy x0 pqr = Raise ValueError) /\
  ((2 <= length x0)%nat -> cos (nth 1 x0 0) <> 0 -> length pqr = 3%nat ->
     exists v0 v1 v2, pqr2rpy x0 pqr = Ok [v0; v1; v2]) /\
  (forall p q r, (2 <= length x0)%nat -> nth 0 x0 0 = 0 -> nth 1 x0 0 = 0 ->
     pqr2rpy x0 [p; q; r] = Ok [p; q; r]) /\
  ((2 <= length x0)%nat -> cos (nth 1 x0 0) <> 0 ->
     pqr2rpy x0 [0; 0; 0] = Ok [0; 0; 0]).
Proof.
  unfold pqr2rpy.
  destruct x0 as [|a [|b x0]]; cbn [length nth].
  1, 2: split; [split; [reflexivity|intros _; lia]|]; repeat split; intros; lia.
  split.
  { split; [intro H; lia|].
    destruct (Req_dec_T (cos b) 0); [discriminate|].
    destruct (negb (length pqr =? 3)%nat); discriminate. }
  split; [intros _ Hc; destruct (Req_dec_T (cos b) 0); [reflexivity|contradiction]|].
  split.
  { intros _ Hc Hl. destruct (Req_dec_T (cos b) 0); [contradiction|].
    apply Nat.eqb_neq in Hl. rewrite Hl. reflexivity. }
  split.
  { intros _ Hc Hl. destruct (Req_dec_T (cos b) 0); [contradiction|].
    rewrite Hl. cbn. destruct pqr as [|p [|q [|r [|s pqr]]]]; try discriminate Hl.
    cbn. eauto. }
  split.
  { intros p q r _ -> ->. rewrite cos_0.
    destruct (Req_dec_T 1 0) as [E|_]; [lra|]. cbn [length Nat.eqb negb].
    cbv zeta. unfold matvec, dot. cbn [map map2 fold_right].
    rewrite sin_0, tan_0. repeat (f_equal; try lra). }
  intros _ Hc. destruct (Req_dec_T (cos b) 0); [contradiction|].
  cbn [length Nat.eqb negb]. cbv zeta. unfold matvec, dot. cbn [map map2 fold_right].
  repeat (f_equal; try lra).
Qed.

(** X5. The index lists the constructor stores are the indices its state
    dictionary gives to the five categories; together they list 0..14 once
    and in order, and both dictionaries number their entries from 0 in
    dictionary order, as many as the dimensions passed to the base class. *)
Theorem index_lists_match_dictionary (self : IonoCraft) :
  constructed self ->
  idx_xyz self = dict_indices "pos" _state_dict /\
  idx_xyz_dot self = dict_indices "vel" _state_dict /\
  idx_ptp self = dict_indices "angle" _state_dict /\
  idx_ptp_dot self = dict_indices "omega" _state_dict /\
  idx_xyz_ddot self = dict_indices "accel" _state_dict /\
  idx_xyz self ++ idx_xyz_dot self ++ idx_ptp self ++ idx_ptp_dot self ++ idx_xyz_ddot self
    = seq 0 (x_dim (base self)) /\
  map (fun e => fst (snd e)) _state_dict = seq 0 (x_dim (base self)) /\
  map (fun e => fst (snd e)) (_input_dict (threeinput self)) = seq 0 (u_dim (base self)).
Proof.
  intro Hc.
  destruct (constructed_inv self Hc)
    as (super & ti & mass & len & ixx & iyy & izz & an & -> & Hxd & Hud & _).
  cbn [base IonoCraft_fields idx_xyz idx_xyz_dot idx_ptp idx_ptp_dot idx_xyz_ddot threeinput].
  rewrite Hxd, Hud. repeat split; try reflexivity. destruct ti; reflexivity.
Qed.

(** ** Further properties of [simulate] *)

Lemma linalg_inv_diag_singular a b c :
  a = 0 \/ b = 0 \/ c = 0 ->
  linalg_inv [[a; 0; 0]; [0; b; 0]; [0; 0; c]] = Raise LinAlgError.
Proof.
  intro H. unfold linalg_inv. cbv zeta.
  assert (HD : det3 a 0 0 0 b 0 0 0 c = 0).
  { unfold det3. destruct H as [->|[->| ->]]; ring. }
  rewrite HD. destruct (Req_dec_T 0 0) as [_|Hne]; [reflexivity|].
  exfalso. apply Hne. reflexivity.
Qed.

Lemma linalg_inv_diag_cases a b c :
  (a <> 0 /\ b <> 0 /\ c <> 0 /\
   linalg_inv [[a; 0; 0]; [0; b; 0]; [0; 0; c]] =
     Ok [[1 / a; 0; 0]; [0; 1 / b; 0]; [0; 0; 1 / c]]) \/
  ((a = 0 \/ b = 0 \/ c = 0) /\
   linalg_inv [[a; 0; 0]; [0; b; 0]; [0; 0; c]] = Raise LinAlgError).
Proof.
  destruct (Req_dec_T a 0) as [Ha|Ha];
    [right; split; [auto|apply linalg_inv_diag_singular; auto]|].
  destruct (Req_dec_T b 0) as [Hb|Hb];
    [right; split; [auto|apply linalg_inv_diag_singular; auto]|].
  destruct (Req_dec_T c 0) as [Hc|Hc];
    [right; split; [auto|apply linalg_inv_diag_singular; auto]|].
  left. repeat split; try assumption. apply linalg_inv_diag; assumption.
Qed.

Section More.

Variables Q_IB Q_BI W_inv : vec -> mat3.

(** The state before the cleanup, component by component, for a model the
    constructor returned: an explicit Euler step on the first twelve
    components and the acceleration measurement in the last three. *)
Lemma step_explicit self x0 x1 x2 x3 x4 x5 x6 x7 x8 x9 x10 x11 x12 x13 x14 u rs loc rs' :
  constructed self ->
  simulate_locals Q_IB Q_BI W_inv self
    [x0; x1; x2; x3; x4; x5; x6; x7; x8; x9; x10; x11; x12; x13; x14] u rs = (Ok loc, rs') ->
  let h := dt (base self) in
  let n i := 0 + x_noise (base self) * gauss rs (i + (drawn rs + u_dim (base self)))%nat in
  exists p0 p1 p2 e0 e1 e2 fx fy fz tx ty tz a0 a1 a2,
    matvec (rows (Q_BI [x6; x7; x8])) [x3; x4; x5] = [p0; p1; p2] /\
    matvec (rows (W_inv [x6; x7; x8])) [x9; x10; x11] = [e0; e1; e2] /\
    F_ext loc = [fx; fy; fz] /\
    Tau loc = [tx; ty; tz] /\
    vadd [0; 0; - g self] (vdiv (F_global loc) (m self)) = [a0; a1; a2] /\
    Ixx self <> 0 /\ Iyy self <> 0 /\ Izz self <> 0 /\ m self <> 0 /\
    xdot loc =
      [p0; p1; p2;
       1 / m self * fx - (x10 * x5 - x11 * x4);
       1 / m self * fy - (x11 * x3 - x9 * x5);
       1 / m self * fz - (x9 * x4 - x10 * x3);
       e0; e1; e2;
       (tx - (Izz self - Iyy self) * x10 * x11) / Ixx self;
       (ty - (Ixx self - Izz self) * x11 * x9) / Iyy self;
       (tz - (Iyy self - Ixx self) * x9 * x10) / Izz self;
       0; 0; 0] /\
    x1_accel loc =
      [x0 + h * p0 + n 0%nat; x1 + h * p1 + n 1%nat; x2 + h * p2 + n 2%nat;
       x3 + h * nth 3 (xdot loc) 0 + n 3%nat;
       x4 + h * nth 4 (xdot loc) 0 + n 4%nat;
       x5 + h * nth 5 (xdot loc) 0 + n 5%nat;
       x6 + h * e0 + n 6%nat; x7 + h * e1 + n 7%nat; x8 + h * e2 + n 8%nat;
       x9 + h * nth 9 (xdot loc) 0 + n 9%nat;
       x10 + h * nth 10 (xdot loc) 0 + n 10%nat;
       x11 + h * nth 11 (xdot loc) 0 + n 11%nat;
       a0; a1; a2].
Proof.
  intros Hc Hrun. cbv zeta.
  apply simulate_locals_eqns in Hrun. cbv zeta in Hrun.
  destruct Hrun as (_ & (_ & _ & Hm) & Hypr & _ & _ & _ & _ & _ & HTau & HFe & HFg
                    & (Ibi & HI & Hxdot) & Hxnv & He & Ha & _).
  destruct (constructed_inv self Hc)
    as (super & ti & mass & len & ixx & iyy & izz & an & -> & Hxd & Hud & _).
  cbn [base IonoCraft_fields idx_xyz idx_xyz_dot idx_ptp idx_ptp_dot idx_xyz_ddot
       m g Ib Ixx Iyy Izz] in *.
  destruct (linalg_inv_diag_cases ixx iyy izz) as [(Hx & Hy & Hz & E)|(_ & E)];
    rewrite E in HI; [injection HI as <-|discriminate HI].
  assert (Hy' : ypr loc = [x6; x7; x8]) by (rewrite Hypr; reflexivity).
  rewrite Hy' in *. clear Hypr Hy'.
  cbn [take_idx map nth] in Hxdot.
  destruct (rows_matvec_3 (Q_BI [x6; x7; x8]) [x3; x4; x5]) as (p0 & p1 & p2 & Ep).
  destruct (rows_matvec_3 (W_inv [x6; x7; x8]) [x9; x10; x11]) as (e0 & e1 & e2 & Ee).
  destruct (rows_matvec_3 (Q_IB [x6; x7; x8]) [0; 0; mass * 9.81]) as (g0 & g1 & g2 & Eg).
  destruct (rows_matvec_3 (Q_BI [x6; x7; x8]) (firstn 3 (T_tau_thrusters loc)))
    as (w0 & w1 & w2 & Ew).
  rewrite Eg in HFe. cbn in HFe. rewrite Ew in HFg.
  rewrite Ep, Ee, HFe, HTau, Hxd in Hxdot.
  exists p0, p1, p2, e0, e1, e2.
  eexists _, _, _, _, _, _, _, _, _.
  split; [exact Ep|]. split; [exact Ee|]. split; [exact HFe|]. split; [exact HTau|].
  rewrite HFg. split; [reflexivity|].
  do 4 (split; [assumption|]).
  assert (Hxdot' : xdot loc = _ ) by (rewrite Hxdot; cbn; reflexivity).
  clear Hxdot.
  split.
  - rewrite Hxdot'. unfold dot. cbn. repeat (f_equal; try (field; assumption)).
  - rewrite Ha, He, Hxnv, Hxd, HFg.
    assert (Hxl : exists d0 d1 d2 d3 d4 d5 d6 d7 d8 d9 d10 d11 d12 d13 d14,
               xdot loc = [d0; d1; d2; d3; d4; d5; d6; d7; d8; d9; d10; d11; d12; d13; d14]
               /\ d0 = p0 /\ d1 = p1 /\ d2 = p2 /\ d6 = e0 /\ d7 = e1 /\ d8 = e2).
    { rewrite Hxdot'. repeat eexists. }
    destruct Hxl as (d0 & d1 & d2 & d3 & d4 & d5 & d6 & d7 & d8 & d9 & d10 & d11 & d12
                     & d13 & d14 & -> & -> & -> & -> & -> & -> & ->).
    reflexivity.
Qed.

Lemma x1_is_cleaned self x u rs loc rs' :
  simulate_locals Q_IB Q_BI W_inv self x u rs = (Ok loc, rs') ->
  x1 loc = map snap (x1_accel loc).
Proof.
  intro H. apply simulate_locals_eqns in H. cbv zeta in H.
  destruct H as (_ & _ & _ & _ & _ & _ & _ & _ & _ & _ & _ & _ & _ & _ & _ & H1 & _).
  exact H1.
Qed.

(** The wrench depends on the input and the input noise only; the external
    force and the world-frame thrust depend, besides, on the attitude. *)
Lemma wrench_of_input self x x' u rs loc rs1 loc' rs1' :
  simulate_locals Q_IB Q_BI W_inv self x u rs = (Ok loc, rs1) ->
  simulate_locals Q_IB Q_BI W_inv self x' u rs = (Ok loc', rs1') ->
  T_tau_thrusters loc' = T_tau_thrusters loc /\
  Tau loc' = Tau loc /\
  (ypr loc' = ypr loc -> F_ext loc' = F_ext loc /\ F_global loc' = F_global loc).
Proof.
  intros H H'.
  apply simulate_locals_eqns in H, H'. cbv zeta in H, H'.
  destruct H as (_ & _ & _ & Hun & Hud & Hth & Hcl & HT & HTau & HFe & HFg & _).
  destruct H' as (_ & _ & _ & Hun' & Hud' & Hth' & Hcl' & HT' & HTau' & HFe' & HFg' & _).
  rewrite <- Hun in Hun'. rewrite Hun' in Hud'. rewrite <- Hud in Hud'.
  rewrite Hud' in Hth'. rewrite <- Hth in Hth'.
  rewrite Hth' in Hcl'. rewrite <- Hcl in Hcl'.
  rewrite Hcl' in HT'. rewrite <- HT in HT'.
  split; [exact HT'|]. split; [rewrite HTau, HTau', HT'; reflexivity|].
  intro Hy. rewrite HFe, HFe', HFg, HFg', HT', Hy. split; reflexivity.
Qed.

Lemma run_length_15 self x u rs loc rs' :
  constructed self ->
  simulate_locals Q_IB Q_BI W_inv self x u rs = (Ok loc, rs') ->
  length x = 15%nat /\ length u = (if threeinput self then 3 else 4)%nat.
Proof.
  intros Hc H. apply simulate_locals_eqns in H. cbv zeta in H.
  destruct H as ((Hx & Hu) & _).
  destruct (constructed_inv self Hc) as (? & ? & ? & ? & ? & ? & ? & ? & -> & Hxd & Hud & _).
  cbn [base IonoCraft_fields threeinput] in *. rewrite Hx, Hu. auto.
Qed.

(** X6. For a model the constructor returned, [simulate] returns exactly
    when the state has 15 and the input the configured number of
    components, neither noise level is negative, the mass is not zero and
    no inertia entry is zero; a call that returns gives 15 components and
    has consumed one sample per input component and 15 more, also when the
    noise levels are 0. *)
Theorem simulate_returns_iff self x u rs :
  constructed self ->
  ((exists v rs', simulate Q_IB Q_BI W_inv self x u rs = (Ok v, rs')) <->
   (length x = 15%nat /\ length u = (if threeinput self then 3 else 4)%nat /\
    0 <= u_noise (base self) /\ 0 <= x_noise (base self) /\
    m self <> 0 /\ Ixx self <> 0 /\ Iyy self <> 0 /\ Izz self <> 0)) /\
  (forall v rs', simulate Q_IB Q_BI W_inv self x u rs = (Ok v, rs') ->
     length v = 15%nat /\ rs' = advance (u_dim (base self) + 15) rs).
Proof.
  intro Hc.
  destruct (constructed_inv self Hc)
    as (super & ti & mass & len & ixx & iyy & izz & an & E & Hxd & Hud & _).
  split; [split|].
  - intros (v & rs' & H). apply simulate_of_locals in H as (loc & H & _).
    destruct (run_length_15 _ _ _ _ _ _ Hc H) as (Hx & Hu).
    apply simulate_locals_eqns in H. cbv zeta in H.
    destruct H as (_ & (Hun & Hxn & Hm) & _ & _ & _ & _ & _ & _ & _ & _ & _
                   & (Ibi & HI & _) & _).
    subst self. cbn [base IonoCraft_fields m Ib Ixx Iyy Izz threeinput] in *.
    destruct (linalg_inv_diag_cases ixx iyy izz) as [(Hix & Hiy & Hiz & _)|(_ & EI)];
      [|rewrite EI in HI; discriminate HI].
    repeat split; try assumption; lra.
  - intros (Hx & Hu & Hun & Hxn & Hm & Hix & Hiy & Hiz).
    destruct (simulate_locals_returns Q_IB Q_BI W_inv self x u rs) as [loc H];
      subst self; cbn [base IonoCraft_fields m Ib Ixx Iyy Izz threeinput] in *;
      try assumption; try congruence.
    { eexists. apply linalg_inv_diag; assumption. }
    do 2 eexists. apply simulate_of_locals. exists loc. split; [exact H|reflexivity].
  - intros v rs' H. apply simulate_of_locals in H as (loc & H & ->).
    destruct (run_length_15 _ _ _ _ _ _ Hc H) as (Hx & _).
    split; [rewrite (simulate_locals_length _ _ _ _ _ _ _ _ _ H); exact Hx|].
    apply simulate_locals_eqns in H. cbv zeta in H.
    destruct H as (_ & _ & _ & _ & _ & _ & _ & _ & _ & _ & _ & _ & _ & _ & _ & _ & ->).
    subst self. cbn [base IonoCraft_fields]. rewrite Hxd. unfold advance. f_equal. lia.
Qed.

Ltac run_checks Hx Hu :=
  unfold simulate, simulate_locals, bind, _enforce_dimension, random_normal,
    py_div, lift, ret, raise;
  cbv beta iota zeta; rewrite Hx, Hu, !Nat.eqb_refl; cbv beta iota delta [negb].

(** X7. A model with mass 0 (the constructor accepts it) cannot be
    simulated: with arguments of the right lengths and a non-negative input
    noise level, the call raises [ZeroDivisionError], after the input-noise
    samples have been drawn. *)
Theorem zero_mass_raises self x u rs :
  length x = x_dim (base self) -> length u = u_dim (base self) ->
  0 <= u_noise (base self) -> m self = 0 ->
  simulate Q_IB Q_BI W_inv self x u rs =
    (Raise ZeroDivisionError, advance (u_dim (base self)) rs).
Proof.
  intros Hx Hu Hun Hm. run_checks Hx Hu.
  destruct (Rlt_dec (u_noise (base self)) 0); [lra|].
  destruct (Req_dec_T (m self) 0); [reflexivity|contradiction].
Qed.

(** X8. A constructed model with a zero inertia entry cannot be simulated:
    with arguments of the right lengths, a non-negative input noise level
    and a non-zero mass, the call raises [LinAlgError], after the
    input-noise samples have been drawn. *)
Theorem singular_inertia_raises self x u rs :
  constructed self ->
  length x = 15%nat -> length u = (if threeinput self then 3 else 4)%nat ->
  0 <= u_noise (base self) -> m self <> 0 ->
  Ixx self = 0 \/ Iyy self = 0 \/ Izz self = 0 ->
  simulate Q_IB Q_BI W_inv self x u rs =
    (Raise LinAlgError, advance (u_dim (base self)) rs).
Proof.
  intros Hc Hx Hu Hun Hm Hsing.
  destruct (constructed_inv self Hc)
    as (super & ti & mass & len & ixx & iyy & izz & an & -> & Hxd & Hud & _).
  cbn [base IonoCraft_fields m Ixx Iyy Izz threeinput] in *.
  rewrite <- Hxd in Hx. rewrite <- Hud in Hu.
  run_checks Hx Hu. cbn [base IonoCraft_fields m Ib].
  destruct (Rlt_dec (u_noise super) 0); [lra|].
  destruct (Req_dec_T mass 0); [contradiction|].
  rewrite (linalg_inv_diag_singular _ _ _ Hsing). reflexivity.
Qed.

(** X9. A negative noise level makes [simulate] raise [ValueError]: a
    negative input-noise level before anything is sampled; a negative
    process-noise level (on a model that passes the other checks) after the
    input-noise samples have been drawn. *)
Theorem negative_noise_raises self x u rs :
  length x = x_dim (base self) -> length u = u_dim (base self) ->
  (u_noise (base self) < 0 ->
     simulate Q_IB Q_BI W_inv self x u rs = (Raise ValueError, rs)) /\
  (0 <= u_noise (base self) -> x_noise (base self) < 0 -> m self <> 0 ->
   (exists Ib_inv, linalg_inv (Ib self) = Ok Ib_inv) ->
     simulate Q_IB Q_BI W_inv self x u rs =
       (Raise ValueError, advance (u_dim (base self)) rs)).
Proof.
  intros Hx Hu. split.
  - intro Hun. run_checks Hx Hu.
    destruct (Rlt_dec (u_noise (base self)) 0); [reflexivity|contradiction].
  - intros Hun Hxn Hm [Ibi HI]. run_checks Hx Hu.
    destruct (Rlt_dec (u_noise (base self)) 0); [lra|].
    destruct (Req_dec_T (m self) 0); [contradiction|].
    rewrite HI. cbv beta iota. cbn [gauss drawn].
    destruct (Rlt_dec (x_noise (base self)) 0); [reflexivity|contradiction].
Qed.

(** X10. The input acts with one step of delay on position and attitude:
    two calls on the same state and random source with different inputs
    return the same position (components 0-2) and the same attitude
    (components 6-8). *)
Theorem input_acts_after_one_step self x u u' rs loc rs1 loc' rs1' :
  constructed self ->
  simulate_locals Q_IB Q_BI W_inv self x u rs = (Ok loc, rs1) ->
  simulate_locals Q_IB Q_BI W_inv self x u' rs = (Ok loc', rs1') ->
  firstn 3 (x1 loc') = firstn 3 (x1 loc) /\
  firstn 3 (skipn 6 (x1 loc')) = firstn 3 (skipn 6 (x1 loc)).
Proof.
  intros Hc H H'.
  destruct (run_length_15 _ _ _ _ _ _ Hc H) as (Hx & _).
  destruct (length_15 _ Hx) as (x0 & x1 & x2 & x3 & x4 & x5 & x6 & x7 & x8 & x9 & x10
                                & x11 & x12 & x13 & x14 & ->).
  rewrite (x1_is_cleaned _ _ _ _ _ _ H), (x1_is_cleaned _ _ _ _ _ _ H').
  destruct (step_explicit _ _ _ _ _ _ _ _ _ _ _ _ _ _ _ _ _ _ _ _ Hc H)
    as (p0 & p1 & p2 & e0 & e1 & e2 & fx & fy & fz & tx & ty & tz & a0 & a1 & a2
        & Ep & Ee & _ & _ & _ & _ & _ & _ & _ & _ & ->).
  destruct (step_explicit _ _ _ _ _ _ _ _ _ _ _ _ _ _ _ _ _ _ _ _ Hc H')
    as (p0' & p1' & p2' & e0' & e1' & e2' & fx' & fy' & fz' & tx' & ty' & tz' & a0' & a1' & a2'
        & Ep' & Ee' & _ & _ & _ & _ & _ & _ & _ & _ & ->).
  rewrite Ep in Ep'. injection Ep' as <- <- <-.
  rewrite Ee in Ee'. injection Ee' as <- <- <-.
  split; reflexivity.
Qed.


(** X12. The incoming acceleration components are never read: two calls
    whose states agree on the first twelve components return the same
    vector. *)
Theorem incoming_acceleration_ignored self x x' u rs loc rs1 loc' rs1' :
  constructed self ->
  simulate_locals Q_IB Q_BI W_inv self x u rs = (Ok loc, rs1) ->
  simulate_locals Q_IB Q_BI W_inv self x' u rs = (Ok loc', rs1') ->
  firstn 12 x' = firstn 12 x ->
  x1 loc' = x1 loc.
Proof.
  intros Hc H H' Hfirst.
  destruct (run_length_15 _ _ _ _ _ _ Hc H) as (Hx & _).
  destruct (run_length_15 _ _ _ _ _ _ Hc H') as (Hx' & _).
  destruct (length_15 _ Hx) as (x0 & x1 & x2 & x3 & x4 & x5 & x6 & x7 & x8 & x9 & x10
                                & x11 & x12 & x13 & x14 & ->).
  destruct (length_15 _ Hx') as (y0 & y1 & y2 & y3 & y4 & y5 & y6 & y7 & y8 & y9 & y10
                                 & y11 & y12 & y13 & y14 & ->).
  cbn in Hfirst. injection Hfirst as -> -> -> -> -> -> -> -> -> -> -> ->.
  rewrite (x1_is_cleaned _ _ _ _ _ _ H), (x1_is_cleaned _ _ _ _ _ _ H').
  destruct (wrench_of_input _ _ _ _ _ _ _ _ _ H H') as (_ & HTau & HF).
  assert (Hy : ypr loc' = ypr loc).
  { apply simulate_locals_eqns in H, H'. cbv zeta in H, H'.
    destruct H as (_ & _ & Hy & _). destruct H' as (_ & _ & Hy' & _).
    rewrite Hy, Hy'.
    destruct (constructed_inv self Hc) as (? & ? & ? & ? & ? & ? & ? & ? & -> & _).
    reflexivity. }
  destruct (HF Hy) as (HFe & HFg). clear HF.
  destruct (step_explicit _ _ _ _ _ _ _ _ _ _ _ _ _ _ _ _ _ _ _ _ Hc H)
    as (p0 & p1 & p2 & e0 & e1 & e2 & fx & fy & fz & tx & ty & tz & a0 & a1 & a2
        & Ep & Ee & EF & ET & EA & _ & _ & _ & _ & Exd & Ex).
  destruct (step_explicit _ _ _ _ _ _ _ _ _ _ _ _ _ _ _ _ _ _ _ _ Hc H')
    as (p0' & p1' & p2' & e0' & e1' & e2' & fx' & fy' & fz' & tx' & ty' & tz' & a0' & a1' & a2'
        & Ep' & Ee' & EF' & ET' & EA' & _ & _ & _ & _ & Exd' & Ex').
  rewrite Ep in Ep'. injection Ep' as <- <- <-.
  rewrite Ee in Ee'. injection Ee' as <- <- <-.
  rewrite HFe, EF in EF'. injection EF' as <- <- <-.
  rewrite HTau, ET in ET'. injection ET' as <- <- <-.
  rewrite HFg, EA in EA'. injection EA' as <- <- <-.
  rewrite <- Exd in Exd'. rewrite Exd' in Ex'. rewrite Ex, Ex'. reflexivity.
Qed.

(** X13. The derivative of the body velocity is [F_ext/m - w x v] and the
    derivative of the angular velocity obeys Euler's equations for the
    diagonal inertia tensor,
    [Ixx*dwx = Taux - (Izz-Iyy)*wy*wz] and its two cyclic companions,
    where [v] is the linear and [w] the angular velocity of the state. *)
Theorem newton_euler_rates self x u rs loc rs' :
  constructed self ->
  simulate_locals Q_IB Q_BI W_inv self x u rs = (Ok loc, rs') ->
  let v i := nth (3 + i) x 0 in
  let w i := nth (9 + i) x 0 in
  let F i := nth i (F_ext loc) 0 in
  let T i := nth i (Tau loc) 0 in
  let d i := nth i (xdot loc) 0 in
  d 3%nat = F 0%nat / m self - (w 1%nat * v 2%nat - w 2%nat * v 1%nat) /\
  d 4%nat = F 1%nat / m self - (w 2%nat * v 0%nat - w 0%nat * v 2%nat) /\
  d 5%nat = F 2%nat / m self - (w 0%nat * v 1%nat - w 1%nat * v 0%nat) /\
  Ixx self * d 9%nat = T 0%nat - (Izz self - Iyy self) * w 1%nat * w 2%nat /\
  Iyy self * d 10%nat = T 1%nat - (Ixx self - Izz self) * w 2%nat * w 0%nat /\
  Izz self * d 11%nat = T 2%nat - (Iyy self - Ixx self) * w 0%nat * w 1%nat /\
  d 12%nat = 0 /\ d 13%nat = 0 /\ d 14%nat = 0.
Proof.
  intros Hc H. cbv zeta.
  destruct (run_length_15 _ _ _ _ _ _ Hc H) as (Hx & _).
  destruct (length_15 _ Hx) as (x0 & x1 & x2 & x3 & x4 & x5 & x6 & x7 & x8 & x9 & x10
                                & x11 & x12 & x13 & x14 & ->).
  destruct (step_explicit _ _ _ _ _ _ _ _ _ _ _ _ _ _ _ _ _ _ _ _ Hc H)
    as (p0 & p1 & p2 & e0 & e1 & e2 & fx & fy & fz & tx & ty & tz & a0 & a1 & a2
        & _ & _ & -> & -> & _ & Hix & Hiy & Hiz & Hm & -> & _).
  cbn [nth Nat.add]. repeat split; try reflexivity; field; assumption.
Qed.

Lemma thrusters_length self x u rs loc rs' :
  constructed self ->
  simulate_locals Q_IB Q_BI W_inv self x u rs = (Ok loc, rs') ->
  exists c0 c1 c2 c3, u_thrusters loc = [c0; c1; c2; c3].
Proof.
  intros Hc H.
  destruct (run_length_15 _ _ _ _ _ _ Hc H) as (_ & Hu).
  apply simulate_locals_eqns in H. cbv zeta in H.
  destruct H as (_ & _ & _ & Hun & Hud & Hth & _).
  destruct (constructed_inv self Hc)
    as (super & ti & mass & len & ixx & iyy & izz & an & -> & _ & Hdim & _).
  cbn [base IonoCraft_fields threeinput _hover_mats L nth] in *.
  rewrite Hth, Hud, Hun, Hdim.
  destruct ti.
  - destruct u as [|u0 [|u1 [|u2 [|u3 u]]]]; try discriminate Hu.
    unfold vadd, vscale. cbn. eauto.
  - destruct u as [|u0 [|u1 [|u2 [|u3 [|u4 u]]]]]; try discriminate Hu.
    unfold vadd. cbn. eauto.
Qed.

(** The last three returned components, as the source computes them. *)
Lemma acceleration_formula self x u rs loc rs' :
  constructed self ->
  simulate_locals Q_IB Q_BI W_inv self x u rs = (Ok loc, rs') ->
  T_tau_thrusters loc = matvec (force2thrust_torque self (angle self)) (u_clipped loc) /\
  skipn 12 (x1 loc) =
    map snap (vadd [0; 0; - (9.81)]
                (vdiv (matvec (rows (Q_BI (take_idx x [6; 7; 8]%nat)))
                         (firstn 3 (T_tau_thrusters loc))) (m self))).
Proof.
  intros Hc H.
  destruct (run_length_15 _ _ _ _ _ _ Hc H) as (Hx & _).
  destruct (length_15 _ Hx) as (x0 & x1 & x2 & x3 & x4 & x5 & x6 & x7 & x8 & x9 & x10
                                & x11 & x12 & x13 & x14 & ->).
  rewrite (x1_is_cleaned _ _ _ _ _ _ H).
  assert (H0 := H). apply simulate_locals_eqns in H0. cbv zeta in H0.
  destruct H0 as (_ & _ & Hypr & _ & _ & _ & _ & HT & _ & _ & HFg & _).
  split; [exact HT|].
  destruct (step_explicit _ _ _ _ _ _ _ _ _ _ _ _ _ _ _ _ _ _ _ _ Hc H)
    as (p0 & p1 & p2 & e0 & e1 & e2 & fx & fy & fz & tx & ty & tz & a0 & a1 & a2
        & _ & _ & _ & _ & EA & _ & _ & _ & _ & _ & ->).
  rewrite HFg, Hypr in EA.
  destruct (constructed_inv self Hc) as (? & ? & ? & ? & ? & ? & ? & ? & -> & _).
  cbn [IonoCraft_fields idx_ptp g m take_idx map nth] in *.
  rewrite EA. reflexivity.
Qed.

(** The three-input expansion on the hover vectors of the constructor. *)
Lemma thrusters_three_input self x u rs loc rs' :
  constructed self -> threeinput self = true ->
  simulate_locals Q_IB Q_BI W_inv self x u rs = (Ok loc, rs') ->
  u_thrusters loc =
    vadd (vadd (vscale (nth 0 (u_noised loc) 0 / 4) [1; 1; 1; 1])
               (vscale (nth 1 (u_noised loc) 0 * L self / 4) [-1; -1; 1; 1]))
         (vscale (nth 2 (u_noised loc) 0 * L self / 4) [-1; 1; 1; -1]) /\
  T_tau_thrusters loc =
    matvec (force2thrust_torque self (angle self)) (_enforce_input_range (u_thrusters loc)) /\
  (forall T, u = [T; 0; 0] -> u_noise (base self) = 0 ->
     u_thrusters loc = [T / 4; T / 4; T / 4; T / 4]).
Proof.
  intros Hc H3 H.
  apply simulate_locals_eqns in H. cbv zeta in H.
  destruct H as (_ & _ & _ & Hun & Hud & Hth & Hcl & HT & _).
  destruct (constructed_inv self Hc)
    as (super & ti & mass & len & ixx & iyy & izz & an & -> & _ & Hu & _).
  cbn [base IonoCraft_fields threeinput _hover_mats L nth] in *. subst ti.
  split; [exact Hth|]. split; [rewrite HT, Hcl; reflexivity|].
  intros T -> Hz. rewrite Hth, Hud, Hun, Hz, Hu. rewrite zero_scale_samples.
  unfold vadd, vscale; simpl. repeat (f_equal; try lra).
Qed.

(** C5. The four actuator commands are those of the noised input, the
    input itself in four-input mode and its expansion in three-input mode,
    and each is clamped into [0, 500e-6] before the wrench is computed: a
    command below 0 becomes 0, one above 500e-6 becomes 500e-6, one in the
    range is kept.  The wrench, the external force and the returned
    acceleration are computed from the clamped commands, and no input of
    the configured length is rejected.  So, with zero input noise, an input
    that induces commands [c] at or above the upper bound (10 times the
    bound, say) has the same outcome as the input that induces commands
    exactly at the bound. *)
Theorem actuator_commands_clamped self x u rs loc rs' :
  constructed self ->
  simulate_locals Q_IB Q_BI W_inv self x u rs = (Ok loc, rs') ->
  let at_level c := if threeinput self then [4 * c; 0; 0] else [c; c; c; c] in
  let wrench := matvec (force2thrust_torque self (angle self)) (u_clipped loc) in
  let attitude := take_idx x [6; 7; 8]%nat in
  length u = (if threeinput self then 3 else 4)%nat /\
  u_noise_vec loc =
    map (fun k => 0 + u_noise (base self) * gauss rs k) (seq (drawn rs) (length u)) /\
  u_noised loc = vadd u (u_noise_vec loc) /\
  u_thrusters loc =
    (if threeinput self
     then vadd (vadd (vscale (nth 0 (u_noised loc) 0 / 4) [1; 1; 1; 1])
                     (vscale (nth 1 (u_noised loc) 0 * L self / 4) [-1; -1; 1; 1]))
               (vscale (nth 2 (u_noised loc) 0 * L self / 4) [-1; 1; 1; -1])
     else u_noised loc) /\
  length (u_thrusters loc) = 4%nat /\ length (u_clipped loc) = 4%nat /\
  Forall2 (fun c k => 0 <= k <= 500e-6 /\ (c < 0 -> k = 0) /\ (500e-6 < c -> k = 500e-6) /\
                      (0 <= c <= 500e-6 -> k = c))
          (u_thrusters loc) (u_clipped loc) /\
  T_tau_thrusters loc = wrench /\
  F_ext loc = vsub (matvec (rows (Q_IB attitude)) [0; 0; m self * 9.81]) (firstn 3 wrench) /\
  skipn 12 (x1 loc) =
    map snap (vadd [0; 0; - (9.81)]
                (vdiv (matvec (rows (Q_BI attitude)) (firstn 3 wrench)) (m self))) /\
  (forall u', length u' = length u ->
     exists loc', simulate_locals Q_IB Q_BI W_inv self x u' rs = (Ok loc', rs')) /\
  (u_noise (base self) = 0 ->
     (forall c, u = at_level c -> u_thrusters loc = [c; c; c; c]) /\
     (forall c, 500e-6 <= c ->
        simulate Q_IB Q_BI W_inv self x (at_level c) rs =
        simulate Q_IB Q_BI W_inv self x (at_level 500e-6) rs) /\
     simulate Q_IB Q_BI W_inv self x (at_level (10 * 500e-6)) rs =
     simulate Q_IB Q_BI W_inv self x (at_level 500e-6) rs).
Proof.
  intros Hc H. cbv zeta.
  destruct (run_length_15 _ _ _ _ _ _ Hc H) as (Hx & Hu).
  destruct (thrusters_length _ _ _ _ _ _ Hc H) as (c0 & c1 & c2 & c3 & Eth).
  destruct (acceleration_formula _ _ _ _ _ _ Hc H) as (_ & Hacc).
  assert (H0 := H). apply simulate_locals_eqns in H0. cbv zeta in H0.
  destruct H0 as ((Hxd & Hud) & (Hun & Hxn & Hm) & Hypr & Hnv & Hnd & Hth & Hcl & HT & _
                  & HFe & _ & (Ibi & HI & _) & _ & _ & _ & _ & Hrs).
  assert (Ecl : u_clipped loc =
                [Rmin upperbound (Rmax c0 lowerbound); Rmin upperbound (Rmax c1 lowerbound);
                 Rmin upperbound (Rmax c2 lowerbound); Rmin upperbound (Rmax c3 lowerbound)])
    by (rewrite Hcl, Eth; reflexivity).
  split; [exact Hu|]. split; [rewrite Hud; exact Hnv|]. split; [exact Hnd|].
  split.
  { rewrite Hth.
    destruct (constructed_inv self Hc) as (? & ? & ? & ? & ? & ? & ? & ? & -> & _).
    reflexivity. }
  split; [rewrite Eth; reflexivity|]. split; [rewrite Ecl; reflexivity|].
  split.
  { rewrite Eth, Ecl.
    repeat (apply Forall2_cons;
            [apply (clip_component lowerbound upperbound), bounds_ordered|]).
    apply Forall2_nil. }
  split; [exact HT|].
  split.
  { rewrite HFe, Hypr, HT.
    destruct (constructed_inv self Hc) as (? & ? & ? & ? & ? & ? & ? & ? & -> & _).
    reflexivity. }
  split; [rewrite Hacc, HT; reflexivity|].
  split.
  { intros u' Hu'.
    destruct (simulate_locals_returns Q_IB Q_BI W_inv self x u' rs) as [loc' Hr];
      try assumption; try lra.
    - rewrite Hu'. exact Hud.
    - exists Ibi. exact HI.
    - exists loc'. rewrite Hr, Hrs. reflexivity. }
  intro Hz.
  assert (Hgen : forall c, 500e-6 <= c ->
            simulate Q_IB Q_BI W_inv self x
              (if threeinput self then [4 * c; 0; 0] else [c; c; c; c]) rs =
            simulate Q_IB Q_BI W_inv self x
              (if threeinput self then [4 * 500e-6; 0; 0]
               else [500e-6; 500e-6; 500e-6; 500e-6]) rs).
  { intros c Hge.
    destruct (constructed_inv self Hc)
      as (super & ti & mass & len & ixx & iyy & izz & an & -> & _ & Hdim & _).
    cbn [base IonoCraft_fields threeinput] in *.
    apply simulate_same_clipped; [exact Hz|destruct ti; reflexivity|].
    cbn [base IonoCraft_fields threeinput _hover_mats L]. rewrite Hdim.
    assert (Hsat : forall v, v = c \/ v = 500e-6 ->
              Rmin upperbound (Rmax v lowerbound) = upperbound).
    { intros v [->| ->]; apply clip_saturated; unfold upperbound; lra. }
    destruct ti; unfold _enforce_input_range, clip; simpl;
      repeat (f_equal; try (rewrite !Hsat; [reflexivity|right; lra|left; lra])). }
  split; [|split; [exact Hgen|apply Hgen; lra]].
  intros c Eu.
  destruct (threeinput self) eqn:E3.
  - destruct (thrusters_three_input _ _ _ _ _ _ Hc E3 H) as (_ & _ & HT3).
    rewrite (HT3 (4 * c) Eu Hz). repeat (f_equal; try lra).
  - rewrite Hth, Hnd, Hnv, Hz, Eu.
    destruct (constructed_inv self Hc)
      as (super & ti & mass & len & ixx & iyy & izz & an & -> & _ & Hdim & _).
    cbn [base IonoCraft_fields threeinput] in *. subst ti. rewrite Hdim.
    rewrite zero_scale_samples. unfold vadd. cbn. repeat (f_equal; try lra).
Qed.

(** X15. Commands that are all zero or negative are clipped to zero thrust:
    the wrench is zero and the acceleration measurement is free fall,
    [(0, 0, -9.81)], at every attitude. *)
Theorem free_fall_reading self x u rs loc rs' :
  constructed self ->
  simulate_locals Q_IB Q_BI W_inv self x u rs = (Ok loc, rs') ->
  Forall (fun c => c <= 0) (u_thrusters loc) ->
  T_tau_thrusters loc = [0; 0; 0; 0; 0; 0] /\
  skipn 12 (x1 loc) = [0; 0; -9.81].
Proof.
  intros Hc H Hneg.
  destruct (thrusters_length _ _ _ _ _ _ Hc H) as (c0 & c1 & c2 & c3 & Eth).
  destruct (acceleration_formula _ _ _ _ _ _ Hc H) as (HT & Hacc).
  assert (Hclip : u_clipped loc = [0; 0; 0; 0]).
  { assert (H0 := H). apply simulate_locals_eqns in H0. cbv zeta in H0.
    destruct H0 as (_ & _ & _ & _ & _ & _ & Hcl & _).
    rewrite Hcl, Eth. rewrite Eth in Hneg.
    assert (Hz : forall c, c <= 0 -> Rmin upperbound (Rmax c lowerbound) = 0).
    { intros c Hle. unfold Rmin, Rmax, upperbound, lowerbound.
      destruct (Rle_dec c 0); destruct (Rle_dec 500e-6 _); lra. }
    inversion Hneg as [|? ? H0' Hn1]; subst. inversion Hn1 as [|? ? H1' Hn2]; subst.
    inversion Hn2 as [|? ? H2' Hn3]; subst. inversion Hn3 as [|? ? H3' _]; subst.
    unfold _enforce_input_range, clip. cbn [map].
    rewrite !Hz by assumption. reflexivity. }
  assert (HT0 : T_tau_thrusters loc = [0; 0; 0; 0; 0; 0]).
  { rewrite HT, Hclip. unfold force2thrust_torque, matvec, dot.
    cbn [map map2 fold_right]. repeat (f_equal; try ring). }
  split; [exact HT0|].
  rewrite Hacc, HT0. cbn [firstn].
  destruct (Q_BI (take_idx x [6; 7; 8]%nat))
    as [[[[q11 q12] q13] [[q21 q22] q23]] [[q31 q32] q33]].
  unfold vadd, vdiv, matvec, dot. cbn [rows map map2 fold_right].
  replace (0 + (q11 * 0 + (q12 * 0 + (q13 * 0 + 0))) / m self) with 0
    by (unfold Rdiv; ring).
  replace (0 + (q21 * 0 + (q22 * 0 + (q23 * 0 + 0))) / m self) with 0
    by (unfold Rdiv; ring).
  replace (- (9.81) + (q31 * 0 + (q32 * 0 + (q33 * 0 + 0))) / m self) with (-9.81)
    by (unfold Rdiv; lra).
  rewrite snap_zero, snap_large; [reflexivity|].
  unfold snap_eps. rewrite Rabs_left by lra. lra.
Qed.


(** X17. Whatever the input, the clipping bounds the wrench: the thrust
    lies within [4*500e-6] and each torque within [2*|L|*500e-6] in
    absolute value, and each lateral force within [500e-6]. *)
Theorem wrench_bounded self x u rs loc rs' :
  constructed self ->
  simulate_locals Q_IB Q_BI W_inv self x u rs = (Ok loc, rs') ->
  let T i := nth i (T_tau_thrusters loc) 0 in
  Rabs (T 0%nat) <= 500e-6 /\ Rabs (T 1%nat) <= 500e-6 /\
  Rabs (T 2%nat) <= 4 * 500e-6 /\
  Rabs (T 3%nat) <= 2 * Rabs (L self) * 500e-6 /\
  Rabs (T 4%nat) <= 2 * Rabs (L self) * 500e-6 /\
  Rabs (T 5%nat) <= 2 * Rabs (L self) * 500e-6.
Proof.
  intros Hc H. cbv zeta.
  destruct (thrusters_length _ _ _ _ _ _ Hc H) as (c0 & c1 & c2 & c3 & Eth).
  assert (H0 := H). apply simulate_locals_eqns in H0. cbv zeta in H0.
  destruct H0 as (_ & _ & _ & _ & _ & _ & Hcl & HT & _).
  assert (Hrange := enforce_input_range_in_range (u_thrusters loc)).
  rewrite <- Hcl in Hrange. rewrite Eth in Hcl.
  unfold _enforce_input_range, clip in Hcl. cbn [map] in Hcl.
  rewrite Hcl in Hrange, HT.
  set (k0 := Rmin upperbound (Rmax c0 lowerbound)) in *.
  set (k1 := Rmin upperbound (Rmax c1 lowerbound)) in *.
  set (k2 := Rmin upperbound (Rmax c2 lowerbound)) in *.
  set (k3 := Rmin upperbound (Rmax c3 lowerbound)) in *.
  inversion Hrange as [|? ? R0 Hr1]; subst. inversion Hr1 as [|? ? R1 Hr2]; subst.
  inversion Hr2 as [|? ? R2 Hr3]; subst. inversion Hr3 as [|? ? R3 _]; subst.
  rewrite HT. unfold force2thrust_torque, matvec, dot. cbn [map map2 fold_right nth].
  set (s := sin (angle self)). set (c := cos (angle self)).
  assert (Hs : -1 <= s <= 1) by apply SIN_bound.
  assert (Hcb : -1 <= c <= 1) by apply COS_bound.
  assert (Habs : forall z b, 0 <= b -> - b <= z <= b -> Rabs z <= b).
  { intros z b Hb Hz. apply Rabs_le. exact Hz. }
  assert (Hprod : forall t d b, -1 <= t <= 1 -> - b <= d <= b -> - b <= t * d <= b).
  { intros t d b Ht Hd. split; nra. }
  assert (HL : forall z b, 0 <= b -> Rabs z <= b ->
                 Rabs (L self * z) <= Rabs (L self) * b).
  { intros z b Hb Hz. rewrite Rabs_mult. apply Rmult_le_compat_l; [apply Rabs_pos|exact Hz]. }
  repeat split.
  - replace (0 * k0 + (s * k1 + (0 * k2 + (- s * k3 + 0)))) with (s * (k1 - k3)) by ring.
    apply Habs; [lra|]. apply Hprod; [exact Hs|lra].
  - replace (- s * k0 + (0 * k1 + (s * k2 + (0 * k3 + 0)))) with (s * (k2 - k0)) by ring.
    apply Habs; [lra|]. apply Hprod; [exact Hs|lra].
  - replace (c * k0 + (c * k1 + (c * k2 + (c * k3 + 0)))) with (c * (k0 + k1 + k2 + k3))
      by ring.
    apply Habs; [lra|]. apply Hprod; [exact Hcb|lra].
  - replace (- L self * s * k0 + (L self * s * k1 + (- L self * s * k2 + (L self * s * k3 + 0))))
      with (L self * (s * (k1 + k3 - k0 - k2))) by ring.
    replace (2 * Rabs (L self) * 500e-6) with (Rabs (L self) * (2 * 500e-6)) by ring.
    apply HL; [lra|]. apply Habs; [lra|]. apply Hprod; [exact Hs|lra].
  - replace (- L self * c * k0 + (- L self * c * k1 + (L self * c * k2 + (L self * c * k3 + 0))))
      with (L self * (c * (k2 + k3 - k0 - k1))) by ring.
    replace (2 * Rabs (L self) * 500e-6) with (Rabs (L self) * (2 * 500e-6)) by ring.
    apply HL; [lra|]. apply Habs; [lra|]. apply Hprod; [exact Hcb|lra].
  - replace (L self * c * k0 + (- L self * c * k1 + (- L self * c * k2 + (L self * c * k3 + 0))))
      with (L self * (c * (k0 + k3 - k1 - k2))) by ring.
    replace (2 * Rabs (L self) * 500e-6) with (Rabs (L self) * (2 * 500e-6)) by ring.
    apply HL; [lra|]. apply Habs; [lra|]. apply Hprod; [exact Hcb|lra].
Qed.

(** X18. The two input modes agree: with zero noise, a three-input model
    given [(u0, u1, u2)] and the four-input model with the same parameters
    given the four commands the expansion assigns to it have the same
    outcome, and the four-input equilibrium input is the expansion of the
    three-input one. *)
Theorem modes_agree (step mass arm ixx iyy izz cant : R) (x : vec) (u0 u1 u2 : R)
    (rs rs4 : RandomState) :
  let three := model_of step true mass arm ixx iyy izz cant 0 0 in
  let four := model_of step false mass arm ixx iyy izz cant 0 0 in
  let expand v0 v1 v2 :=
    [v0 / 4 - v1 * arm / 4 - v2 * arm / 4; v0 / 4 - v1 * arm / 4 + v2 * arm / 4;
     v0 / 4 + v1 * arm / 4 + v2 * arm / 4; v0 / 4 + v1 * arm / 4 - v2 * arm / 4] in
  fst (simulate Q_IB Q_BI W_inv three x [u0; u1; u2] rs) =
    fst (simulate Q_IB Q_BI W_inv four x (expand u0 u1 u2) rs4) /\
  u_e four = expand (nth 0 (u_e three) 0) (nth 1 (u_e three) 0) (nth 2 (u_e three) 0).
Proof.
  cbv zeta. split.
  - unfold simulate, simulate_locals, bind, _enforce_dimension, py_div, lift, ret, raise.
    cbv beta iota zeta.
    cbn [model_of IonoCraft_fields base x_dim u_dim x_noise u_noise m L threeinput angle
         Ib g dt idx_xyz idx_xyz_dot idx_ptp idx_ptp_dot idx_xyz_ddot _hover_mats length
         Nat.eqb negb].
    destruct (negb (length x =? 15)%nat); [reflexivity|].
    rewrite !random_normal_zero_scale.
    destruct (Req_dec_T mass 0); [reflexivity|].
    destruct (linalg_inv [[ixx; 0; 0]; [0; iyy; 0]; [0; 0; izz]]); [|reflexivity].
    rewrite !random_normal_zero_scale. cbn [fst x1].
    unfold force2thrust_torque. cbn [model_of IonoCraft_fields L].
    match goal with
    | |- context [_enforce_input_range (vadd (vadd ?a ?b) ?c)] =>
        replace (vadd (vadd a b) c)
          with (vadd [u0 / 4 - u1 * arm / 4 - u2 * arm / 4;
                      u0 / 4 - u1 * arm / 4 + u2 * arm / 4;
                      u0 / 4 + u1 * arm / 4 + u2 * arm / 4;
                      u0 / 4 + u1 * arm / 4 - u2 * arm / 4] (zeros 4))
          by (unfold vadd, vscale, zeros; cbn; repeat (f_equal; try lra))
    end.
    reflexivity.
  - unfold model_of, IonoCraft_fields, vscale, ones. cbn. repeat (f_equal; try lra).
Qed.

(** X19. The store model and the value model agree whatever the aliasing
    between the caller's arrays and the model's: on a store that holds the
    model, a call on two references (equal to each other or to the model's
    arrays, or not) raises the exception the value-level call raises, or
    returns a reference to the vector the value-level call returns, and
    leaves the random source as the value-level call does. *)
Theorem store_model_agrees st self xl ul x u :
  represents st self -> holds st xl x -> holds st ul u ->
  random (snd (simulate_heap Q_IB Q_BI W_inv xl ul st)) =
    snd (simulate Q_IB Q_BI W_inv self x u (random st)) /\
  match fst (simulate_heap Q_IB Q_BI W_inv xl ul st),
        fst (simulate Q_IB Q_BI W_inv self x u (random st)) with
  | Ok l, Ok v => holds (snd (simulate_heap Q_IB Q_BI W_inv xl ul st)) l v
  | Raise e, Raise e' => e = e'
  | _, _ => False
  end.
Proof.
  intros Hrep Hx Hu.
  destruct (simulate Q_IB Q_BI W_inv self x u (random st)) as [[v|e] rs'] eqn:Hsim.
  - destruct (simulate_heap_refines_ok Q_IB Q_BI W_inv st self xl ul x u v rs' Hrep Hx Hu Hsim)
      as (l & st' & Hrun & Hrs & Hv).
    rewrite Hrun. cbn [fst snd]. split; [exact Hrs|exact Hv].
  - destruct (simulate_heap_refines_raise Q_IB Q_BI W_inv st self xl ul x u e rs' Hrep Hx Hu Hsim)
      as (st' & Hrun & Hrs).
    rewrite Hrun. cbn [fst snd]. split; [exact Hrs|reflexivity].
Qed.

(** X20. A craft at rest keeps its pose for one step: from a state with zero
    linear and angular velocity, with zero process noise, the returned
    position and attitude are those of the state (cleaned), whatever the
    input. *)
Theorem rest_keeps_pose self p0 p1 p2 y0 y1 y2 a0 a1 a2 u rs loc rs' :
  constructed self -> x_noise (base self) = 0 ->
  simulate_locals Q_IB Q_BI W_inv self
    [p0; p1; p2; 0; 0; 0; y0; y1; y2; 0; 0; 0; a0; a1; a2] u rs = (Ok loc, rs') ->
  firstn 3 (x1 loc) = [snap p0; snap p1; snap p2] /\
  firstn 3 (skipn 6 (x1 loc)) = [snap y0; snap y1; snap y2].
Proof.
  intros Hc Hxn H.
  rewrite (x1_is_cleaned _ _ _ _ _ _ H).
  destruct (step_explicit _ _ _ _ _ _ _ _ _ _ _ _ _ _ _ _ _ _ _ _ Hc H)
    as (q0 & q1 & q2 & e0 & e1 & e2 & fx & fy & fz & tx & ty & tz & b0 & b1 & b2
        & Ep & Ee & _ & _ & _ & _ & _ & _ & _ & _ & ->).
  assert (Hz : forall A : mat3, matvec (rows A) [0; 0; 0] = [0; 0; 0]).
  { intros [[[[a b] c] [[d e] f]] [[g h] i]]. unfold matvec, dot. cbn.
    repeat (f_equal; try ring). }
  rewrite Hz in Ep, Ee. injection Ep as <- <- <-. injection Ee as <- <- <-.
  cbv zeta. rewrite Hxn. cbn [map firstn skipn].
  split; repeat (f_equal; try ring).
Qed.

End More.

(** ** Instances for the further properties *)

(** The quiet model returns on every state of 15 and input of 3 entries. *)
Lemma quiet_runs (x u : vec) (rs : RandomState) :
  length x = 15%nat -> length u = 3%nat ->
  exists loc rs',
    simulate_locals Q_IB_std Q_BI_std W_inv_std quiet_model x u rs = (Ok loc, rs').
Proof.
  intros Hx Hu.
  destruct default_inertia_nonzero as (Hix & Hiy & Hiz).
  destruct (simulate_locals_returns Q_IB_std Q_BI_std W_inv_std quiet_model x u rs)
    as [loc H]; try assumption; try (cbn; lra).
  - cbn. unfold default_m. lra.
  - eexists. apply linalg_inv_diag; assumption.
  - eauto.
Qed.

(** A saturating three-input command: ten times the upper bound on every
    actuator. *)
Lemma actuator_commands_clamped_witness :
  exists loc rs',
    simulate_locals Q_IB_std Q_BI_std W_inv_std quiet_model (zeros 15)
      [4 * (10 * 500e-6); 0; 0] rs_a = (Ok loc, rs') /\
    u_thrusters loc = [10 * 500e-6; 10 * 500e-6; 10 * 500e-6; 10 * 500e-6] /\
    u_clipped loc = [500e-6; 500e-6; 500e-6; 500e-6] /\
    T_tau_thrusters loc =
      matvec (force2thrust_torque quiet_model (angle quiet_model))
        [500e-6; 500e-6; 500e-6; 500e-6] /\
    simulate Q_IB_std Q_BI_std W_inv_std quiet_model (zeros 15) [4 * (10 * 500e-6); 0; 0] rs_a =
    simulate Q_IB_std Q_BI_std W_inv_std quiet_model (zeros 15) [4 * 500e-6; 0; 0] rs_a.
Proof.
  destruct (quiet_runs (zeros 15) [4 * (10 * 500e-6); 0; 0] rs_a eq_refl eq_refl)
    as (loc & rs' & H).
  exists loc, rs'. split; [exact H|].
  destruct (actuator_commands_clamped Q_IB_std Q_BI_std W_inv_std quiet_model _ _ _ _ _
              quiet_model_constructed H)
    as (_ & _ & _ & _ & _ & _ & Hclamp & HT & _ & _ & _ & Hsat).
  destruct (Hsat eq_refl) as (Hlevel & _ & Hten).
  assert (Eth := Hlevel (10 * 500e-6) eq_refl).
  assert (Ecl : u_clipped loc = [500e-6; 500e-6; 500e-6; 500e-6]).
  { rewrite Eth in Hclamp.
    inversion Hclamp as [|? k0 ? l0 (_ & _ & E0 & _) Hclamp0]; subst.
    inversion Hclamp0 as [|? k1 ? l1 (_ & _ & E1 & _) Hclamp1]; subst.
    inversion Hclamp1 as [|? k2 ? l2 (_ & _ & E2 & _) Hclamp2]; subst.
    inversion Hclamp2 as [|? k3 ? l3 (_ & _ & E3 & _) Hclamp3]; subst.
    inversion Hclamp3; subst.
    rewrite E0, E1, E2, E3 by lra. reflexivity. }
  split; [exact Eth|]. split; [exact Ecl|]. split; [rewrite HT, Ecl; reflexivity|exact Hten].
Defined.

(** A state with a position component exactly at the threshold and others
    above it. *)
Lemma simulate_threshold_is_strict_witness :
  exists loc rs',
    simulate_locals Q_IB_std Q_BI_std W_inv_std quiet_model
      [1e-15; 2; -3; 0; 0; 0; 0; 0; 0; 0; 0; 0; 0; 0; 0] (u_e quiet_model) rs_a
      = (Ok loc, rs') /\
    nth 0 (x1_accel loc) 0 = 1e-15 /\ nth 1 (x1_accel loc) 0 = 2 /\
    nth 2 (x1_accel loc) 0 = -3 /\
    snap_eps <= Rabs (nth 0 (x1_accel loc) 0) /\
    nth 0 (x1 loc) 0 = 1e-15 /\ nth 1 (x1 loc) 0 = 2 /\ nth 2 (x1 loc) 0 = -3.
Proof.
  destruct (quiet_runs [1e-15; 2; -3; 0; 0; 0; 0; 0; 0; 0; 0; 0; 0; 0; 0] (u_e quiet_model)
              rs_a eq_refl eq_refl) as (loc & rs' & H).
  exists loc, rs'. split; [exact H|].
  destruct (simulate_threshold_is_strict Q_IB_std Q_BI_std W_inv_std _ _ _ _ _ _ H)
    as (_ & Hkeep & _).
  destruct (step_explicit Q_IB_std Q_BI_std W_inv_std _ _ _ _ _ _ _ _ _ _ _ _ _ _ _ _ _ _ _ _
              quiet_model_constructed H)
    as (p0 & p1 & p2 & e0 & e1 & e2 & fx & fy & fz & tx & ty & tz & a0 & a1 & a2
        & Ep & _ & _ & _ & _ & _ & _ & _ & _ & _ & Ex).
  rewrite matvec_rows_zero in Ep. injection Ep as <- <- <-.
  cbv zeta in Ex. cbn [quiet_model IonoCraft_fields base x_noise dt] in Ex.
  assert (E0 : nth 0 (x1_accel loc) 0 = 1e-15) by (rewrite Ex; cbn [nth]; lra).
  assert (E1 : nth 1 (x1_accel loc) 0 = 2) by (rewrite Ex; cbn [nth]; lra).
  assert (E2 : nth 2 (x1_accel loc) 0 = -3) by (rewrite Ex; cbn [nth]; lra).
  split; [exact E0|]. split; [exact E1|]. split; [exact E2|].
  assert (B0 : snap_eps <= Rabs (nth 0 (x1_accel loc) 0))
    by (rewrite E0, Rabs_pos_eq by lra; unfold snap_eps; lra).
  assert (B1 : snap_eps <= Rabs (nth 1 (x1_accel loc) 0))
    by (rewrite E1, Rabs_pos_eq by lra; unfold snap_eps; lra).
  assert (B2 : snap_eps <= Rabs (nth 2 (x1_accel loc) 0))
    by (rewrite E2, Rabs_left by lra; unfold snap_eps; lra).
  split; [exact B0|].
  split; [rewrite (Hkeep 0%nat B0); exact E0|].
  split; [rewrite (Hkeep 1%nat B1); exact E1|].
  rewrite (Hkeep 2%nat B2). exact E2.
Defined.

Lemma pqr2rpy_level_witness :
  pqr2rpy [0; 0; 1] [1; 2; 3] = Ok [1; 2; 3] /\
  pqr2rpy [0] [1; 2; 3] = Raise IndexError /\
  pqr2rpy [] [1; 2; 3] = Raise IndexError.
Proof.
  split; [|split].
  - apply (proj1 (proj2 (proj2 (proj2 (proj2 (pqr2rpy_level [0; 0; 1] [1; 2; 3])))))).
    + cbn. lia.
    + reflexivity.
    + reflexivity.
  - apply (proj1 (pqr2rpy_level [0] [1; 2; 3])). cbn. lia.
  - apply (proj1 (pqr2rpy_level [] [1; 2; 3])). cbn. lia.
Defined.

Lemma index_lists_match_dictionary_witness :
  idx_xyz quiet_model = dict_indices "pos" _state_dict /\
  idx_xyz_ddot quiet_model = dict_indices "accel" _state_dict /\
  idx_xyz quiet_model ++ idx_xyz_dot quiet_model ++ idx_ptp quiet_model
    ++ idx_ptp_dot quiet_model ++ idx_xyz_ddot quiet_model = seq 0 15.
Proof.
  destruct (index_lists_match_dictionary quiet_model quiet_model_constructed)
    as (H1 & _ & _ & _ & H5 & H6 & _).
  split; [exact H1|]. split; [exact H5|exact H6].
Defined.

Lemma simulate_returns_iff_witness :
  exists v rs',
    simulate Q_IB_std Q_BI_std W_inv_std quiet_model (zeros 15) (u_e quiet_model) rs_a
      = (Ok v, rs') /\
    length v = 15%nat /\ rs' = advance 18 rs_a.
Proof.
  destruct (simulate_returns_iff Q_IB_std Q_BI_std W_inv_std quiet_model (zeros 15)
              (u_e quiet_model) rs_a quiet_model_constructed) as (Hiff & Hout).
  destruct default_inertia_nonzero as (Hix & Hiy & Hiz).
  destruct (proj2 Hiff) as (v & rs' & H).
  { repeat split; try reflexivity; try assumption; cbn; try lra. unfold default_m. lra. }
  exists v, rs'. split; [exact H|]. exact (Hout v rs' H).
Defined.

Lemma zero_mass_raises_witness :
  simulate Q_IB_std Q_BI_std W_inv_std
    (model_of 0.01 true 0 default_L default_Ixx default_Iyy default_Izz 0 0 0)
    (zeros 15) [0; 0; 0] rs_a
  = (Raise ZeroDivisionError, advance 3 rs_a).
Proof.
  apply (zero_mass_raises Q_IB_std Q_BI_std W_inv_std
           (model_of 0.01 true 0 default_L default_Ixx default_Iyy default_Izz 0 0 0)
           (zeros 15) [0; 0; 0] rs_a eq_refl eq_refl).
  - cbn. lra.
  - reflexivity.
Defined.

Lemma singular_inertia_raises_witness :
  simulate Q_IB_std Q_BI_std W_inv_std
    (model_of 0.01 true default_m default_L 0 default_Iyy default_Izz 0 0 0)
    (zeros 15) [0; 0; 0] rs_a
  = (Raise LinAlgError, advance 3 rs_a).
Proof.
  apply (singular_inertia_raises Q_IB_std Q_BI_std W_inv_std
           (model_of 0.01 true default_m default_L 0 default_Iyy default_Izz 0 0 0)
           (zeros 15) [0; 0; 0] rs_a).
  - apply model_of_constructed. lra.
  - reflexivity.
  - reflexivity.
  - cbn. lra.
  - cbn. unfold default_m. lra.
  - left. reflexivity.
Defined.

Lemma negative_noise_raises_witness :
  simulate Q_IB_std Q_BI_std W_inv_std
    (model_of 0.01 true default_m default_L default_Ixx default_Iyy default_Izz 0 0 (-1))
    (zeros 15) [0; 0; 0] rs_a
  = (Raise ValueError, rs_a).
Proof.
  apply (proj1 (negative_noise_raises Q_IB_std Q_BI_std W_inv_std
                  (model_of 0.01 true default_m default_L default_Ixx default_Iyy
                     default_Izz 0 0 (-1))
                  (zeros 15) [0; 0; 0] rs_a eq_refl eq_refl)).
  cbn. lra.
Defined.

Lemma input_acts_after_one_step_witness :
  exists loc loc' rs1 rs1',
    simulate_locals Q_IB_std Q_BI_std W_inv_std quiet_model (zeros 15) (u_e quiet_model) rs_a
      = (Ok loc, rs1) /\
    simulate_locals Q_IB_std Q_BI_std W_inv_std quiet_model (zeros 15) [0; 1; 2] rs_a
      = (Ok loc', rs1') /\
    firstn 3 (x1 loc') = firstn 3 (x1 loc) /\
    firstn 3 (skipn 6 (x1 loc')) = firstn 3 (skipn 6 (x1 loc)).
Proof.
  destruct (quiet_runs (zeros 15) (u_e quiet_model) rs_a eq_refl eq_refl) as (loc & rs1 & H).
  destruct (quiet_runs (zeros 15) [0; 1; 2] rs_a eq_refl eq_refl) as (loc' & rs1' & H').
  exists loc, loc', rs1, rs1'. split; [exact H|]. split; [exact H'|].
  exact (input_acts_after_one_step Q_IB_std Q_BI_std W_inv_std _ _ _ _ _ _ _ _ _
           quiet_model_constructed H H').
Defined.


Lemma incoming_acceleration_ignored_witness :
  exists loc loc' rs1 rs1',
    simulate_locals Q_IB_std Q_BI_std W_inv_std quiet_model
      [0; 0; 0; 0; 0; 0; 0; 0; 0; 0; 0; 0; 0; 0; 0] (u_e quiet_model) rs_a = (Ok loc, rs1) /\
    simulate_locals Q_IB_std Q_BI_std W_inv_std quiet_model
      [0; 0; 0; 0; 0; 0; 0; 0; 0; 0; 0; 0; 7; 8; 9] (u_e quiet_model) rs_a = (Ok loc', rs1') /\
    x1 loc' = x1 loc.
Proof.
  destruct (quiet_runs [0; 0; 0; 0; 0; 0; 0; 0; 0; 0; 0; 0; 0; 0; 0] (u_e quiet_model) rs_a
              eq_refl eq_refl) as (loc & rs1 & H).
  destruct (quiet_runs [0; 0; 0; 0; 0; 0; 0; 0; 0; 0; 0; 0; 7; 8; 9] (u_e quiet_model) rs_a
              eq_refl eq_refl) as (loc' & rs1' & H').
  exists loc, loc', rs1, rs1'. split; [exact H|]. split; [exact H'|].
  exact (incoming_acceleration_ignored Q_IB_std Q_BI_std W_inv_std _ _ _ _ _ _ _ _ _
           quiet_model_constructed H H' eq_refl).
Defined.

Lemma newton_euler_rates_witness :
  exists loc rs',
    simulate_locals Q_IB_std Q_BI_std W_inv_std quiet_model
      [0; 0; 0; 1; 2; 3; 0; 0; 0; 4; 5; 6; 0; 0; 0] (u_e quiet_model) rs_a = (Ok loc, rs') /\
    nth 3 (xdot loc) 0 = nth 0 (F_ext loc) 0 / m quiet_model - (5 * 3 - 6 * 2) /\
    Izz quiet_model * nth 11 (xdot loc) 0 =
      nth 2 (Tau loc) 0 - (Iyy quiet_model - Ixx quiet_model) * 4 * 5.
Proof.
  destruct (quiet_runs [0; 0; 0; 1; 2; 3; 0; 0; 0; 4; 5; 6; 0; 0; 0] (u_e quiet_model) rs_a
              eq_refl eq_refl) as (loc & rs' & H).
  exists loc, rs'. split; [exact H|].
  destruct (newton_euler_rates Q_IB_std Q_BI_std W_inv_std _ _ _ _ _ _
              quiet_model_constructed H) as (H3 & _ & _ & _ & _ & H11 & _).
  split; [exact H3|exact H11].
Defined.

Lemma free_fall_reading_witness :
  exists loc rs',
    simulate_locals Q_IB_std Q_BI_std W_inv_std quiet_model
      [0; 0; 0; 0; 0; 0; 1; 2; 3; 0; 0; 0; 0; 0; 0] [0; 0; 0] rs_a = (Ok loc, rs') /\
    T_tau_thrusters loc = [0; 0; 0; 0; 0; 0] /\
    skipn 12 (x1 loc) = [0; 0; -9.81].
Proof.
  destruct (quiet_runs [0; 0; 0; 0; 0; 0; 1; 2; 3; 0; 0; 0; 0; 0; 0] [0; 0; 0] rs_a
              eq_refl eq_refl) as (loc & rs' & H).
  exists loc, rs'. split; [exact H|].
  apply (free_fall_reading Q_IB_std Q_BI_std W_inv_std _ _ _ _ _ _ quiet_model_constructed H).
  destruct (thrusters_three_input Q_IB_std Q_BI_std W_inv_std _ _ _ _ _ _
              quiet_model_constructed eq_refl H) as (_ & _ & HT).
  rewrite (HT 0 eq_refl eq_refl). repeat constructor; lra.
Defined.


Lemma wrench_bounded_witness :
  exists loc rs',
    simulate_locals Q_IB_std Q_BI_std W_inv_std quiet_model (zeros 15) [1; 1; 1] rs_a
      = (Ok loc, rs') /\
    Rabs (nth 2 (T_tau_thrusters loc) 0) <= 4 * 500e-6.
Proof.
  destruct (quiet_runs (zeros 15) [1; 1; 1] rs_a eq_refl eq_refl) as (loc & rs' & H).
  exists loc, rs'. split; [exact H|].
  exact (proj1 (proj2 (proj2 (wrench_bounded Q_IB_std Q_BI_std W_inv_std _ _ _ _ _ _
                                quiet_model_constructed H)))).
Defined.

Lemma store_model_agrees_witness :
  random (snd (simulate_heap Q_IB_std Q_BI_std W_inv_std 0%nat 1%nat quiet_store)) =
    snd (simulate Q_IB_std Q_BI_std W_inv_std quiet_model (zeros 15) (u_e quiet_model) rs_a).
Proof.
  exact (proj1 (store_model_agrees Q_IB_std Q_BI_std W_inv_std quiet_store quiet_model
                  0%nat 1%nat (zeros 15) (u_e quiet_model)
                  quiet_store_represents eq_refl eq_refl)).
Defined.

Lemma rest_keeps_pose_witness :
  exists loc rs',
    simulate_locals Q_IB_std Q_BI_std W_inv_std quiet_model
      [1; 2; 3; 0; 0; 0; 4; 5; 6; 0; 0; 0; 0; 0; 0] [1; 1; 1] rs_a = (Ok loc, rs') /\
    firstn 3 (x1 loc) = [snap 1; snap 2; snap 3] /\
    firstn 3 (skipn 6 (x1 loc)) = [snap 4; snap 5; snap 6].
Proof.
  destruct (quiet_runs [1; 2; 3; 0; 0; 0; 4; 5; 6; 0; 0; 0; 0; 0; 0] [1; 1; 1] rs_a
              eq_refl eq_refl) as (loc & rs' & H).
  exists loc, rs'. split; [exact H|].
  exact (rest_keeps_pose Q_IB_std Q_BI_std W_inv_std _ _ _ _ _ _ _ _ _ _ _ _ _ _
           quiet_model_constructed eq_refl H).
Defined.

